(** * strimo-plan-util: the credential generator and the purchase orchestrator

    A shallow embedding of [purchase.ts] (both copies kept in the
    repository) and of the middleware and route of [app.ts], with the
    properties of the specification and further properties of the code.

    - JavaScript strings are [string]; the code only looks for the
      character "@", for the word "login" and for ASCII letters and
      digits, so every code unit outside ASCII behaves like any other
      non-alphanumeric character.
    - Integer-valued [number]s are [Z]; a draw of [Math.random()] and
      its product with [charset.length] are IEEE 754 binary64 values
      ([spec_float] with precision 53 and maximal exponent 1024), so the
      product rounds as it does in the engine.
    - A call that may throw has a [completion]: it returns normally or
      completes abruptly with the thrown value.
    - The browser, the provider's page, the environment, the clock and
      the random source form a [World] that answers every operation. *)

From Stdlib Require Import String Ascii List Bool Arith ZArith Lia.
From Stdlib Require Import Floats.SpecFloat.
Import ListNotations.

Open Scope string_scope.

(* ================================================================== *)
(** * JavaScript values and completions *)

(** What a [throw] carries: an [Error] object with its [message], or some
    other value ([error instanceof Error] is false for it). *)
Inductive exn : Type :=
| JsError (message : string)
| JsThrown.

Inductive completion (A : Type) : Type :=
| Normal (a : A)
| Abrupt (e : exn).
Arguments Normal {A} a.
Arguments Abrupt {A} e.

(** An optional string ([string | undefined]) in a boolean context:
    [undefined] and the empty string are falsy. *)
Definition truthy (o : option string) : bool :=
  match o with
  | Some s => negb (s =? "")
  | None => false
  end.

(** [o || d] for an optional string [o]. *)
Definition or_else (o : option string) (d : string) : string :=
  match o with
  | Some s => if s =? "" then d else s
  | None => d
  end.

(* ================================================================== *)
(** * String primitives used by the source *)

Module Js.

Fixpoint str_filter (p : ascii -> bool) (s : string) : string :=
  match s with
  | EmptyString => EmptyString
  | String c s' => if p c then String c (str_filter p s') else str_filter p s'
  end.

Fixpoint str_map (f : ascii -> ascii) (s : string) : string :=
  match s with
  | EmptyString => EmptyString
  | String c s' => String (f c) (str_map f s')
  end.

Fixpoint str_forallb (p : ascii -> bool) (s : string) : bool :=
  match s with
  | EmptyString => true
  | String c s' => p c && str_forallb p s'
  end.

Fixpoint str_existsb (p : ascii -> bool) (s : string) : bool :=
  match s with
  | EmptyString => false
  | String c s' => p c || str_existsb p s'
  end.

Fixpoint str_repeat (c : ascii) (n : nat) : string :=
  match n with
  | O => EmptyString
  | S n' => String c (str_repeat c n')
  end.

Definition in_range (lo hi : nat) (c : ascii) : bool :=
  let n := nat_of_ascii c in (lo <=? n)%nat && (n <=? hi)%nat.

Definition isDigit (c : ascii) : bool := in_range 48 57 c.
Definition isUpper (c : ascii) : bool := in_range 65 90 c.
Definition isLower (c : ascii) : bool := in_range 97 122 c.

(** The complement of the character class [[^a-zA-Z0-9]]. *)
Definition isAlnum (c : ascii) : bool := isLower c || isUpper c || isDigit c.

Definition lowerChar (c : ascii) : ascii :=
  if isUpper c then ascii_of_nat (nat_of_ascii c + 32) else c.

Definition upperChar (c : ascii) : ascii :=
  if isLower c then ascii_of_nat (nat_of_ascii c - 32) else c.

Definition toLowerCase : string -> string := str_map lowerChar.
Definition toUpperCase : string -> string := str_map upperChar.

(** [s.includes(needle)] *)
Fixpoint includes (needle s : string) : bool :=
  if prefix needle s then true
  else match s with
       | EmptyString => false
       | String _ s' => includes needle s'
       end.

(** [s.split(sep)] for a one-character separator: never an empty array. *)
Fixpoint split (sep : ascii) (s : string) : list string :=
  match s with
  | EmptyString => [EmptyString]
  | String c s' =>
      if Ascii.eqb c sep then EmptyString :: split sep s'
      else match split sep s' with
           | h :: t => String c h :: t
           | [] => [String c EmptyString]
           end
  end.

(** [s.replace(/[^a-zA-Z0-9]/g, "")] *)
Definition strip_non_alnum (s : string) : string := str_filter isAlnum s.

(** [s.slice(start)]: a negative [start] counts from the end. *)
Definition slice (start : Z) (s : string) : string :=
  let len := Z.of_nat (String.length s) in
  let from := if (start <? 0)%Z then Z.max (len + start) 0 else Z.min start len in
  substring (Z.to_nat from) (Z.to_nat (len - from)) s.

(** [s.padStart(target, c)] for a one-character pad string. *)
Definition padStart (target : nat) (c : ascii) (s : string) : string :=
  str_repeat c (target - String.length s) ++ s.

Definition digitChar (d : Z) : ascii := ascii_of_nat (48 + Z.to_nat d).

(** Decimal digits of a non-negative integer, most significant first,
    prepended to [acc]. *)
Fixpoint digits (fuel : nat) (n : Z) (acc : string) : string :=
  match fuel with
  | O => acc
  | S fuel' =>
      let acc' := String (digitChar (n mod 10)) acc in
      if (n / 10 =? 0)%Z then acc' else digits fuel' (n / 10) acc'
  end.

(** [n.toString()] for an integer-valued number: [Z.log2 n + 1] binary
    digits bound the number of decimal ones. *)
Definition toString (n : Z) : string :=
  if (n <? 0)%Z
  then String "-" (digits (S (Z.to_nat (Z.log2 (- n)))) (- n) "")
  else digits (S (Z.to_nat (Z.log2 n))) n "".

End Js.

(* ================================================================== *)
(** * Credential generator *)

(** The local-time fields a [Date] hands out. *)
Record Date : Type := {
  getFullYear : Z;
  getMonth : Z;      (* 0 .. 11 *)
  getDate : Z;       (* 1 .. 31 *)
  getHours : Z;      (* 0 .. 23 *)
  getMinutes : Z     (* 0 .. 59 *)
}.

(** The ranges of the accessors, for a wall clock of the common era. *)
Definition wall_clock (now : Date) : Prop :=
  (10 <= getFullYear now /\
   0 <= getMonth now <= 11 /\
   1 <= getDate now <= 31 /\
   0 <= getHours now <= 23 /\
   0 <= getMinutes now <= 59)%Z.

Definition timestamp (now : Date) : string :=
  Js.slice (-2) (Js.toString (getFullYear now)) ++
  Js.padStart 2 "0" (Js.toString (getMonth now + 1)) ++
  Js.padStart 2 "0" (Js.toString (getDate now)) ++
  Js.padStart 2 "0" (Js.toString (getHours now)) ++
  Js.padStart 2 "0" (Js.toString (getMinutes now)).

(** [generateUsernameFromEmail]; [now] is what [new Date()] returns. *)
Definition generateUsernameFromEmail (now : Date) (email : string)
  : completion string :=
  if (email =? "") || negb (Js.includes "@" email) then
    Abrupt (JsError "Invalid email address")
  else
    let emailPrefix := hd "" (Js.split "@" email) in
    let cleanedPrefix := Js.toLowerCase (Js.strip_non_alnum emailPrefix) in
    if cleanedPrefix =? "" then
      Abrupt (JsError "Email prefix is invalid after cleaning")
    else
      let prefixPart := Js.toUpperCase (substring 0 6 cleanedPrefix) in
      Normal (prefixPart ++ timestamp now).

Definition charset : string := "abcdefghijklmnopqrstuvwxyz".

(** A JavaScript [number]: an IEEE 754 binary64 value. *)
Definition number : Type := spec_float.

(** The [number] of an integer, here of a string's [length]. *)
Definition number_of_Z (z : Z) : number := binary_normalize 53 1024 z 0 false.

(** [x * y] on [number]s: the exact product rounded to the nearest
    binary64 value, ties to even. *)
Definition number_mul (x y : number) : number := SFmul 53 1024 x y.

(** [Math.floor(x)] as an integer; [NaN] and the infinities, which
    [Math.floor] returns unchanged, are [None]. *)
Definition Math_floor (x : number) : option Z :=
  match x with
  | S754_zero _ => Some 0%Z
  | S754_finite s m e => Some (Z.shiftl (cond_Zopp s (Zpos m)) e)
  | S754_infinity _ | S754_nan => None
  end.

(** [Math.floor(Math.random() * charset.length)] for the draw [r]. *)
Definition randomIndex (r : number) : option Z :=
  Math_floor (number_mul r (number_of_Z (Z.of_nat (String.length charset)))).

(** [password += charset[i]]: an index off the string, or one that is no
    integer, yields [undefined], which [+=] spells out. *)
Definition append_charAt (password : string) (i : option Z) : string :=
  match (match i with
         | Some i => if (i <? 0)%Z then None else String.get (Z.to_nat i) charset
         | None => None
         end) with
  | Some c => password ++ String c ""
  | None => password ++ "undefined"
  end.

(** [generatePassword]; [random k] is the value of the [k]-th call of
    [Math.random()], and an absent [length] defaults to 8. *)
Definition generatePassword (random : nat -> number) (length : option Z) : string :=
  let length := match length with Some n => n | None => 8%Z end in
  fold_left (fun password i => append_charAt password (randomIndex (random i)))
            (seq 0 (Z.to_nat length)) "".

(* ================================================================== *)
(** * Purchase orchestrator *)

Inductive OrderType : Type := STANDARD | MAG_DEVICE.

Record PurchaseResult : Type := {
  username : string;
  password : string;
  success : bool;
  error : option string;
  macAddress : option string;
  serverUrl : option string;
  portalURL : option string;
  m3uUrl : option string;
  epgUrl : option string;
  backupServers : option string
}.

(** [process.env] *)
Record Env : Type := {
  IPTV_PROVIDER_URL : option string;
  IPTV_PROVIDER_USERNAME : option string;
  IPTV_PROVIDER_PASSWORD : option string;
  IPTV_SERVER_URL : option string;
  IPTV_BACKUP_SERVERS : option string;
  MAG_PORTAL_URL : option string
}.

Inductive WaitUntil : Type := networkidle0 | networkidle2.

(** The calls made on puppeteer, the browser and the page, as the
    entries of a trace.  [PromiseAll first second] stands for the two
    calls that [Promise.all([first, second])] starts together and awaits
    as one: it is a single entry, with the outcome of the pair.  Reading
    [page.url()] cannot fail, is answered by [location] and leaves no
    entry.  The length of a trace is therefore not the number of calls
    the source makes, and no property below counts all calls. *)
Inductive Op : Type :=
| Launch (args : list string)
| NewPage
| SetDefaultTimeout (ms : Z)
| OnDialog
| Goto (url : string) (waitUntil : WaitUntil)
| TypeText (selector text : string)
| Click (selector : string)
| Select (selector value : string)
| WaitForNavigation (waitUntil : WaitUntil)
| PromiseAll (first second : Op)
| WaitForSelector (selector : string) (visible : bool)
| WaitForTimeout (ms : Z)
| Close.

(** A call together with its outcome: [None] when it completed, [Some e]
    when it threw (or its promise rejected with) [e]. *)
Definition Event : Type := (Op * option exn)%type.

(** Everything outside the function.  The browser and the page answer a
    call knowing the whole history of calls so far. *)
Record World : Type := {
  env : Env;
  clock : Date;
  random : nat -> number;
  respond : list Event -> Op -> option exn;
  location : list Event -> string
}.

(** The two copies of [purchase.ts] differ in these constants only. *)
Record Build : Type := {
  logging : bool;
  launchArgs : list string;
  timeout : Z;
  idle : WaitUntil;
  settle : option Z
}.

(** The copy that logs its progress. *)
Definition instrumented : Build := {|
  logging := true;
  launchArgs := ["--no-sandbox"; "--disable-setuid-sandbox"; "--disable-web-security";
                 "--allow-running-insecure-content"; "--ignore-certificate-errors"];
  timeout := 30000;
  idle := networkidle0;
  settle := Some 2000%Z
|}.

(** The other copy. *)
Definition plain : Build := {|
  logging := false;
  launchArgs := ["--disable-web-security"; "--allow-running-insecure-content";
                 "--ignore-certificate-errors"];
  timeout := 60000;
  idle := networkidle2;
  settle := None
|}.

(** The state of one invocation: whether [browser] has been assigned, the
    calls made so far (oldest first) and the lines written to the console
    that mention an argument not used elsewhere. *)
Record St : Type := {
  browser : bool;
  trace : list Event;
  console : list string
}.

Definition init : St := {| browser := false; trace := []; console := [] |}.

(** State and exceptions. *)
Definition M (A : Type) : Type := St -> completion A * St.

Definition ret {A} (a : A) : M A := fun st => (Normal a, st).

Definition throw {A} (e : exn) : M A := fun st => (Abrupt e, st).

Definition bind {A B} (m : M A) (f : A -> M B) : M B :=
  fun st =>
    match m st with
    | (Normal a, st') => f a st'
    | (Abrupt e, st') => (Abrupt e, st')
    end.

(** [try { m } catch (e) { h e }] *)
Definition try_catch {A} (m : M A) (h : exn -> M A) : M A :=
  fun st =>
    match m st with
    | (Normal a, st') => (Normal a, st')
    | (Abrupt e, st') => h e st'
    end.

Declare Scope js_scope.
Delimit Scope js_scope with js.
Notation "x <- m ;; k" := (bind m (fun x => k))
  (at level 61, m at next level, right associativity) : js_scope.
Notation "m ;; k" := (bind m (fun _ => k))
  (at level 61, right associativity) : js_scope.
Open Scope js_scope.

(** A completion of a synchronous helper, rethrown in place. *)
Definition lift {A} (c : completion A) : M A :=
  match c with
  | Normal a => ret a
  | Abrupt e => throw e
  end.

(** The result object built once the browser is closed: the credentials,
    [success: true], and the fields of the order type. *)
Definition assemble (e : Env) (orderType : OrderType) (macAddress : option string)
    (username password : string) : PurchaseResult :=
  let serverUrl := or_else (IPTV_SERVER_URL e) "http://ky-tv.cc:8080" in
  let backupServers := or_else (IPTV_BACKUP_SERVERS e) "" in
  let portalURL := or_else (MAG_PORTAL_URL e) "" in
  match orderType with
  | STANDARD =>
      {| username := username; password := password; success := true;
         error := None;
         macAddress := None;
         serverUrl := Some serverUrl;
         portalURL := None;
         m3uUrl := Some (serverUrl ++ "/get.php?username=" ++ username ++
                         "&password=" ++ password ++ "&type=m3u_plus&output=ts");
         epgUrl := Some (serverUrl ++ "/xmltv.php?username=" ++ username ++
                         "&password=" ++ password);
         backupServers := Some backupServers |}
  | MAG_DEVICE =>
      {| username := username; password := password; success := true;
         error := None;
         macAddress := macAddress;
         serverUrl := None;
         portalURL := Some portalURL;
         m3uUrl := None;
         epgUrl := None;
         backupServers := None |}
  end.

Section Orchestrator.

Variable b : Build.
Variable w : World.

(** One call on the browser or the page, answered by the world and
    recorded. *)
Definition call (op : Op) : M unit :=
  fun st =>
    let r := respond w (trace st) op in
    let st' := {| browser := browser st;
                  trace := trace st ++ [(op, r)];
                  console := console st |} in
    match r with
    | None => (Normal tt, st')
    | Some e => (Abrupt e, st')
    end.

(** [browser = await puppeteer.launch(...)]: the variable is assigned only
    when the launch completes. *)
Definition launch : M unit :=
  call (Launch (launchArgs b)) ;;
  fun st => (Normal tt, {| browser := true; trace := trace st; console := console st |}).

(** [if (browser) { await browser.close(); }] *)
Definition close_if_assigned : M unit :=
  fun st => if browser st then call Close st else (Normal tt, st).

(** [page.url()] *)
Definition page_url : M string :=
  fun st => (Normal (location w (trace st)), st).

Definition log (line : string) : M unit :=
  fun st =>
    (Normal tt,
     if logging b
     then {| browser := browser st; trace := trace st; console := console st ++ [line] |}
     else st).

Definition show_bool (x : bool) : string := if x then "true" else "false".

Definition show_order (orderType : OrderType) : string :=
  match orderType with
  | STANDARD => "STANDARD"
  | MAG_DEVICE => "MAG_DEVICE"
  end.

(** The [try] block of [purchasePlan]. *)
Definition attempt (planId email : string) (orderType : OrderType)
    (macAddress : option string) : M PurchaseResult :=
  launch ;;
  call NewPage ;;
  call (SetDefaultTimeout (timeout b)) ;;
  call OnDialog ;;
  baseUrl <- (if truthy (IPTV_PROVIDER_URL (env w))
              then ret (or_else (IPTV_PROVIDER_URL (env w)) "")
              else throw (JsError "IPTV_PROVIDER_URL not set in environment variables")) ;;
  let endpoint := match orderType with MAG_DEVICE => "/mag" | STANDARD => "/line" end in
  let providerUrl := baseUrl ++ endpoint in
  call (Goto providerUrl (idle b)) ;;
  url <- page_url ;;
  (if Js.includes "login" url then
     if truthy (IPTV_PROVIDER_USERNAME (env w)) && truthy (IPTV_PROVIDER_PASSWORD (env w))
     then
       call (TypeText "#username" (or_else (IPTV_PROVIDER_USERNAME (env w)) "")) ;;
       call (TypeText "#password" (or_else (IPTV_PROVIDER_PASSWORD (env w)) "")) ;;
       call (PromiseAll (WaitForNavigation (idle b)) (Click "#login_button"))
     else throw (JsError "IPTV provider credentials not set in environment variables")
   else ret tt) ;;
  call (Select "#package" planId) ;;
  credentials <-
    match orderType with
    | STANDARD =>
        username <- lift (generateUsernameFromEmail (clock w) email) ;;
        let password := generatePassword (random w) None in
        call (TypeText "#username" username) ;;
        call (TypeText "#password" password) ;;
        ret (username, password)
    | MAG_DEVICE =>
        if truthy macAddress then
          call (TypeText "#mac" (or_else macAddress "")) ;;
          ret (or_else macAddress "", "")
        else throw (JsError "macAddress is required for MAG_DEVICE orders")
    end ;;
  let '(username, password) := credentials in
  call (Click "#user-details > ul > li > a") ;;
  call (WaitForSelector "#submit_button" true) ;;
  call (Click "#submit_button") ;;
  call (WaitForNavigation (idle b)) ;;
  match settle b with
  | Some ms => call (WaitForTimeout ms)
  | None => ret tt
  end ;;
  close_if_assigned ;;
  ret (assemble (env w) orderType macAddress username password).

(** [error instanceof Error ? error.message : "Unknown error occurred"] *)
Definition message_of (e : exn) : string :=
  match e with
  | JsError message => message
  | JsThrown => "Unknown error occurred"
  end.

(** The object returned by the [catch] block. *)
Definition failed (e : exn) : PurchaseResult :=
  {| username := ""; password := ""; success := false;
     error := Some (message_of e);
     macAddress := None; serverUrl := None; portalURL := None;
     m3uUrl := None; epgUrl := None; backupServers := None |}.

(** The [catch] block of [purchasePlan]. *)
Definition recover (e : exn) : M PurchaseResult :=
  close_if_assigned ;;
  ret (failed e).

(** The first line written to the console. *)
Definition start_line (planId email : string) (orderType : OrderType)
    (isFreeTrial : bool) : string :=
  "PurchasePlan started: planId=" ++ planId ++ ", email=" ++ email ++
  ", orderType=" ++ show_order orderType ++ ", isFreeTrial=" ++ show_bool isFreeTrial.

(** [purchasePlan]: the completion its promise settles with, and the
    final state. *)
Definition purchasePlan (planId email : string) (orderType : OrderType)
    (macAddress : option string) (isFreeTrial : bool)
  : completion PurchaseResult * St :=
  (log (start_line planId email orderType isFreeTrial) ;;
   try_catch (attempt planId email orderType macAddress) recover) init.

End Orchestrator.

(* ================================================================== *)
(** * Vocabulary of the specification *)

(** The layout [YYMMDDHHmm] as the specification words it: five fields
    of two decimal digits each, zero-padded. *)
Definition two_digits (n : Z) : string :=
  String (Js.digitChar (n / 10)) (String (Js.digitChar (n mod 10)) "").

Definition YYMMDDHHmm (now : Date) : string :=
  two_digits (getFullYear now mod 100) ++
  two_digits (getMonth now + 1) ++
  two_digits (getDate now) ++
  two_digits (getHours now) ++
  two_digits (getMinutes now).

Definition has_at (s : string) : bool := Js.str_existsb (Ascii.eqb "@") s.

(** [email] reads [pre], then its first "@", then [post]. *)
Definition first_at (email pre post : string) : Prop :=
  email = pre ++ String "@" post /\ has_at pre = false.

(** The derived prefix as the specification words it: strip, upper-case,
    keep at most six characters. *)
Definition derived_prefix (pre : string) : string :=
  substring 0 6 (Js.toUpperCase (Js.strip_non_alnum pre)).

Definition upper_or_digit (c : ascii) : bool := Js.isUpper c || Js.isDigit c.

(** The two rejections of [generateUsernameFromEmail]. *)
Definition InvalidInput (e : exn) : Prop :=
  e = JsError "Invalid email address" \/
  e = JsError "Email prefix is invalid after cleaning".

(** The emails the specification has [deriveUsername] reject: empty, no
    "@", or nothing alphanumeric before the first "@". *)
Definition rejected (email : string) : Prop :=
  email = "" \/ has_at email = false \/
  exists pre post, first_at email pre post /\ Js.str_existsb Js.isAlnum pre = false.

(** A draw of [Math.random()] is a binary64 value of the half-open unit
    interval: [0 <= x] and [x < 1] as the engine compares numbers. *)
Definition in_unit_interval (x : number) : Prop :=
  valid_binary 53 1024 x = true /\
  SFleb (S754_zero false) x = true /\
  SFltb x (SFone 53 1024) = true.

Definition unit_interval (random : nat -> number) : Prop :=
  forall k, in_unit_interval (random k).

(** The mantissa of a shifted record rounded to nearest, ties to even. *)
Definition rounded (mrs : shr_record) : Z :=
  round_nearest_even (shr_m mrs) (loc_of_shr_record mrs).

(** Two draws are the same number: identical values, or values that [===]
    holds equal (so [+0] and [-0] are the same draw). *)
Definition same_number (x y : number) : Prop :=
  x = y \/ SFeqb x y = true.

(** The draw 0.5. *)
Definition half : number := S754_finite false 4503599627370496 (-53).

(** The largest draw, [1 - 2^-53]. *)
Definition largest_draw : number := S754_finite false 9007199254740991 (-53).

(** The draw 866076851417403 / 2^52, a little below 5/26: its exact
    product with 26 lies below 5 and rounds to 5. *)
Definition below_five_26ths : number := S754_finite false 6928614811339224 (-55).

(** A random source that alternates between these two draws. *)
Definition sample_draws (k : nat) : number :=
  if Nat.even k then below_five_26ths else largest_draw.

(** Weakest precondition of a computation: [Q] for a normal completion,
    [E] for an abrupt one. *)
Definition wp {A} (m : M A) (Q : A -> St -> Prop) (E : exn -> St -> Prop)
    (st : St) : Prop :=
  match m st with
  | (Normal a, st') => Q a st'
  | (Abrupt e, st') => E e st'
  end.

(** Two states that agree on everything but the console. *)
Definition same_calls (st1 st2 : St) : Prop :=
  browser st1 = browser st2 /\ trace st1 = trace st2.

(** A computation that neither reads the console nor lets it decide
    anything. *)
Definition console_blind {A} (m : M A) : Prop :=
  forall st1 st2, same_calls st1 st2 ->
    fst (m st1) = fst (m st2) /\ same_calls (snd (m st1)) (snd (m st2)).

(** The last [n] calls of a trace. *)
Definition last_calls (n : nat) (tr : list Event) : list Event :=
  rev (firstn n (rev tr)).

(** The state in which the [try] block is entered. *)
Definition entry (console : list string) : St :=
  {| browser := false; trace := []; console := console |}.

Definition is_close (ev : Event) : bool :=
  match fst ev with Close => true | _ => false end.

Definition completed (ev : Event) : bool :=
  match snd ev with None => true | Some _ => false end.

(** Calls of [browser.close()], and those among them that completed. *)
Definition close_calls (tr : list Event) : nat :=
  List.length (filter is_close tr).

Definition releases (tr : list Event) : nat :=
  List.length (filter (fun ev => is_close ev && completed ev) tr).

(** The launch completed: a browser session was acquired. *)
Definition acquired (tr : list Event) : bool :=
  existsb (fun ev => match ev with (Launch _, None) => true | _ => false end) tr.

(** The plan was selected on the form: the flow got to its order-type
    branch. *)
Definition plan_selected (tr : list Event) : bool :=
  existsb (fun ev => match ev with (Select _ _, None) => true | _ => false end) tr.

Definition is_timeout (ev : Event) : bool :=
  match fst ev with WaitForTimeout _ => true | _ => false end.

(** The four fields of a standard order and the two of a MAG order. *)
Definition standard_group (r : PurchaseResult) : list (option string) :=
  [serverUrl r; backupServers r; m3uUrl r; epgUrl r].

Definition mag_group (r : PurchaseResult) : list (option string) :=
  [macAddress r; portalURL r].

Definition populated (group : list (option string)) : Prop :=
  Forall (fun field => field <> None) group.

Definition unpopulated (group : list (option string)) : Prop :=
  Forall (fun field => field = None) group.

(** Sample surroundings: a configured environment, a page that is not a
    login page, and a browser whose every call completes. *)
Definition sample_env : Env := {|
  IPTV_PROVIDER_URL := Some "https://panel.example";
  IPTV_PROVIDER_USERNAME := Some "reseller";
  IPTV_PROVIDER_PASSWORD := Some "secret";
  IPTV_SERVER_URL := None;
  IPTV_BACKUP_SERVERS := None;
  MAG_PORTAL_URL := Some "http://portal.example/c"
|}.

Definition sample_clock : Date :=
  {| getFullYear := 2026; getMonth := 10; getDate := 2; getHours := 9; getMinutes := 5 |}.

Definition calm : World := {|
  env := sample_env;
  clock := sample_clock;
  random := fun _ => half;
  respond := fun _ _ => None;
  location := fun _ => "https://panel.example/line"
|}.

(** The same without [IPTV_PROVIDER_URL]. *)
Definition unconfigured : World := {|
  env := {| IPTV_PROVIDER_URL := None;
            IPTV_PROVIDER_USERNAME := None;
            IPTV_PROVIDER_PASSWORD := None;
            IPTV_SERVER_URL := None;
            IPTV_BACKUP_SERVERS := None;
            MAG_PORTAL_URL := None |};
  clock := sample_clock;
  random := fun _ => half;
  respond := fun _ _ => None;
  location := fun _ => "https://panel.example/mag"
|}.

(** A browser that cannot be closed: every call completes except
    [browser.close()], which throws each time. *)
Definition unclosable : World := {|
  env := sample_env;
  clock := sample_clock;
  random := fun _ => half;
  respond := fun _ op =>
    match op with
    | Close => Some (JsError "EBUSY: resource busy or locked")
    | _ => None
    end;
  location := fun _ => "https://panel.example/line"
|}.

(** A browser whose first [browser.close()] throws and whose next one
    completes; every other call completes. *)
Definition closes_at_second_call : World := {|
  env := sample_env;
  clock := sample_clock;
  random := fun _ => half;
  respond := fun tr op =>
    match op with
    | Close =>
        if existsb is_close tr then None
        else Some (JsError "EBUSY: resource busy or locked")
    | _ => None
    end;
  location := fun _ => "https://panel.example/line"
|}.

(** A provider that cannot be reached, behind a browser that cannot be
    closed. *)
Definition unreachable_unclosable : World := {|
  env := sample_env;
  clock := sample_clock;
  random := fun _ => half;
  respond := fun _ op =>
    match op with
    | Goto _ _ => Some (JsError "net::ERR_CONNECTION_REFUSED")
    | Close => Some (JsError "EBUSY: resource busy or locked")
    | _ => None
    end;
  location := fun _ => "about:blank"
|}.

(* ================================================================== *)
(** * Email validation *)

(** Regular expressions over characters, matched by derivatives. *)
Module Regex.

Inductive t : Type :=
| Void
| Eps
| Class (p : ascii -> bool)
| Cat (r s : t)
| Alt (r s : t)
| Star (r : t).

(** [r+] *)
Definition plus (r : t) : t := Cat r (Star r).

Fixpoint nullable (r : t) : bool :=
  match r with
  | Void => false
  | Eps => true
  | Class _ => false
  | Cat r s => nullable r && nullable s
  | Alt r s => nullable r || nullable s
  | Star _ => true
  end.

Fixpoint deriv (c : ascii) (r : t) : t :=
  match r with
  | Void => Void
  | Eps => Void
  | Class p => if p c then Eps else Void
  | Cat r s =>
      if nullable r then Alt (Cat (deriv c r) s) (deriv c s)
      else Cat (deriv c r) s
  | Alt r s => Alt (deriv c r) (deriv c s)
  | Star r => Cat (deriv c r) (Star r)
  end.

(** [/^r$/.test(s)]: the whole of [s] matches [r]. *)
Fixpoint test (r : t) (s : string) : bool :=
  match s with
  | EmptyString => nullable r
  | String c s' => test (deriv c r) s'
  end.

(** The strings a regular expression denotes. *)
Inductive Lang : t -> string -> Prop :=
| LEps : Lang Eps ""
| LClass p c : p c = true -> Lang (Class p) (String c "")
| LCat r s x y : Lang r x -> Lang s y -> Lang (Cat r s) (x ++ y)
| LAltL r s x : Lang r x -> Lang (Alt r s) x
| LAltR r s x : Lang s x -> Lang (Alt r s) x
| LStarNil r : Lang (Star r) ""
| LStarApp r x y : Lang r x -> Lang (Star r) y -> Lang (Star r) (x ++ y).

End Regex.

(** The class [\s], for the code units below 256: tab, line feed,
    vertical tab, form feed, carriage return, space, no-break space. *)
Definition isWhitespace (c : ascii) : bool :=
  let n := nat_of_ascii c in
  ((9 <=? n)%nat && (n <=? 13)%nat) || (n =? 32)%nat || (n =? 160)%nat.

(** The class [[^\s@]]. *)
Definition isAddressChar (c : ascii) : bool :=
  negb (isWhitespace c || Ascii.eqb c "@").

(** [/^[^\s@]+@[^\s@]+\.[^\s@]+$/] *)
Definition emailRegex : Regex.t :=
  Regex.Cat (Regex.plus (Regex.Class isAddressChar))
    (Regex.Cat (Regex.Class (Ascii.eqb "@"))
       (Regex.Cat (Regex.plus (Regex.Class isAddressChar))
          (Regex.Cat (Regex.Class (Ascii.eqb "."))
             (Regex.plus (Regex.Class isAddressChar))))).

(** [isValidEmail] *)
Definition isValidEmail (email : string) : bool := Regex.test emailRegex email.

(** A non-empty run of characters that are neither white space nor "@". *)
Definition address_part (s : string) : Prop :=
  s <> "" /\ Js.str_forallb isAddressChar s = true.

(* ================================================================== *)
(** * [purchasePlan] on the order type as received *)

(** The route hands [purchasePlan] the [orderType] of the request body
    unchecked, so at run time it is any string.  These are the [try]
    block and the function again, with the two comparisons the source
    makes on that string. *)
Section AnyOrderType.

Variable b : Build.
Variable w : World.

(** The result object, branching on [orderType === "STANDARD"]. *)
Definition assemble_any (orderType : string) (macAddress : option string)
    (username password : string) : PurchaseResult :=
  if orderType =? "STANDARD"
  then assemble (env w) STANDARD macAddress username password
  else assemble (env w) MAG_DEVICE macAddress username password.

Definition attempt_any (planId email orderType : string)
    (macAddress : option string) : M PurchaseResult :=
  launch b w ;;
  call w NewPage ;;
  call w (SetDefaultTimeout (timeout b)) ;;
  call w OnDialog ;;
  baseUrl <- (if truthy (IPTV_PROVIDER_URL (env w))
              then ret (or_else (IPTV_PROVIDER_URL (env w)) "")
              else throw (JsError "IPTV_PROVIDER_URL not set in environment variables")) ;;
  let endpoint := if orderType =? "MAG_DEVICE" then "/mag" else "/line" in
  let providerUrl := baseUrl ++ endpoint in
  call w (Goto providerUrl (idle b)) ;;
  url <- page_url w ;;
  (if Js.includes "login" url then
     if truthy (IPTV_PROVIDER_USERNAME (env w)) && truthy (IPTV_PROVIDER_PASSWORD (env w))
     then
       call w (TypeText "#username" (or_else (IPTV_PROVIDER_USERNAME (env w)) "")) ;;
       call w (TypeText "#password" (or_else (IPTV_PROVIDER_PASSWORD (env w)) "")) ;;
       call w (PromiseAll (WaitForNavigation (idle b)) (Click "#login_button"))
     else throw (JsError "IPTV provider credentials not set in environment variables")
   else ret tt) ;;
  call w (Select "#package" planId) ;;
  credentials <-
    (if orderType =? "STANDARD" then
       username <- lift (generateUsernameFromEmail (clock w) email) ;;
       let password := generatePassword (random w) None in
       call w (TypeText "#username" username) ;;
       call w (TypeText "#password" password) ;;
       ret (username, password)
     else
       if truthy macAddress then
         call w (TypeText "#mac" (or_else macAddress "")) ;;
         ret (or_else macAddress "", "")
       else throw (JsError "macAddress is required for MAG_DEVICE orders")) ;;
  let '(username, password) := credentials in
  call w (Click "#user-details > ul > li > a") ;;
  call w (WaitForSelector "#submit_button" true) ;;
  call w (Click "#submit_button") ;;
  call w (WaitForNavigation (idle b)) ;;
  match settle b with
  | Some ms => call w (WaitForTimeout ms)
  | None => ret tt
  end ;;
  close_if_assigned w ;;
  ret (assemble_any orderType macAddress username password).

Definition start_line_any (planId email orderType : string)
    (isFreeTrial : bool) : string :=
  "PurchasePlan started: planId=" ++ planId ++ ", email=" ++ email ++
  ", orderType=" ++ orderType ++ ", isFreeTrial=" ++ show_bool isFreeTrial.

Definition purchasePlan_any (planId email orderType : string)
    (macAddress : option string) (isFreeTrial : bool)
  : completion PurchaseResult * St :=
  (log b (start_line_any planId email orderType isFreeTrial) ;;
   try_catch (attempt_any planId email orderType macAddress) (recover w)) init.

End AnyOrderType.

(* ================================================================== *)
(** * HTTP layer *)

(** A request header as Node hands it out: [string | string[] | undefined]. *)
Inductive Header : Type :=
| NoHeader
| One (value : string)
| Many (values : list string).

(** [!h] is false for every array, even an empty one. *)
Definition header_truthy (h : Header) : bool :=
  match h with
  | NoHeader => false
  | One value => negb (value =? "")
  | Many _ => true
  end.

(** [h === s] for a string [s]. *)
Definition header_is (h : Header) (s : string) : bool :=
  match h with
  | One value => value =? s
  | _ => false
  end.

(** What is sent with [res.json]. *)
Inductive Payload : Type :=
| ErrorOnly (message : string)
| Purchase (result : PurchaseResult)
| Health (state : string).

Record Response : Type := {
  code : Z;
  payload : Payload
}.

(** A middleware either answers or calls [next()]. *)
Inductive Middleware : Type :=
| Next
| Answer (res : Response).

(** [authenticateApiKey]; [API_KEY] is [process.env.API_KEY] and [apiKey]
    the header [x-api-key]. *)
Definition authenticateApiKey (API_KEY : option string) (apiKey : Header)
  : Middleware :=
  if negb (truthy API_KEY) then
    Answer {| code := 500; payload := ErrorOnly "API key not configured" |}
  else if negb (header_truthy apiKey) || negb (header_is apiKey (or_else API_KEY ""))
  then Answer {| code := 401; payload := ErrorOnly "Unauthorized: Invalid API key" |}
  else Next.

(** [process.env.ALLOWED_ORIGINS ? process.env.ALLOWED_ORIGINS.split(',') : []] *)
Definition allowedOrigins (ALLOWED_ORIGINS : option string) : list string :=
  if truthy ALLOWED_ORIGINS
  then Js.split "," (or_else ALLOWED_ORIGINS "")
  else [].

(** [l.indexOf(x)], counting from [i]. *)
Fixpoint indexOf_from (i : Z) (x : string) (l : list string) : Z :=
  match l with
  | [] => (-1)%Z
  | y :: l' => if y =? x then i else indexOf_from (i + 1) x l'
  end.

Definition indexOf (x : string) (l : list string) : Z := indexOf_from 0 x l.

(** The [origin] function of the CORS options: [Normal true] stands for
    [callback(null, true)], an abrupt completion for [callback(new Error(..))]. *)
Definition cors_origin (ALLOWED_ORIGINS origin : option string) : completion bool :=
  if negb (truthy origin) then Normal true
  else if negb (indexOf (or_else origin "") (allowedOrigins ALLOWED_ORIGINS) =? -1)%Z
  then Normal true
  else Abrupt (JsError "Not allowed by CORS").



(** The handler of [GET /health]. *)
Definition health_route : Response := {| code := 200; payload := Health "OK" |}.


(* ================================================================== *)
(** * Vocabulary for the calls of a run *)

(** The exceptions thrown by the calls of a trace, oldest first. *)
Fixpoint failures (tr : list Event) : list exn :=
  match tr with
  | [] => []
  | (_, Some e) :: tr' => e :: failures tr'
  | (_, None) :: tr' => failures tr'
  end.

(** After a call of [browser.close()] nothing but such calls follows. *)
Fixpoint quiet_after_close (tr : list Event) : bool :=
  match tr with
  | [] => true
  | ev :: tr' => if is_close ev then forallb is_close tr' else quiet_after_close tr'
  end.

Definition calls_of (p : Op -> bool) (tr : list Event) : nat :=
  List.length (filter (fun ev => p (fst ev)) tr).

Definition is_launch (op : Op) : bool :=
  match op with Launch _ => true | _ => false end.

Definition is_goto (op : Op) : bool :=
  match op with Goto _ _ => true | _ => false end.

Definition is_select (op : Op) : bool :=
  match op with Select _ _ => true | _ => false end.

Definition is_submit (op : Op) : bool :=
  match op with Click selector => selector =? "#submit_button" | _ => false end.

Definition is_login_submit (op : Op) : bool :=
  match op with PromiseAll _ _ => true | _ => false end.

(** The calls that touch the provider's page: navigation, typing,
    selecting, clicking and waiting. *)
Definition touches_page (op : Op) : bool :=
  match op with
  | Launch _ | NewPage | SetDefaultTimeout _ | OnDialog | Close => false
  | _ => true
  end.

(** The calls that fill in or operate the form. *)
Definition operates_form (op : Op) : bool :=
  match op with
  | TypeText _ _ | Click _ | Select _ _ | PromiseAll _ _ => true
  | _ => false
  end.

(** The calls of a trace that threw. *)
Fixpoint failed_ops (tr : list Event) : list Op :=
  match tr with
  | [] => []
  | (op, Some _) :: tr' => op :: failed_ops tr'
  | (_, None) :: tr' => failed_ops tr'
  end.

(** The click on the final submission control completed. *)
Definition submitted (tr : list Event) : bool :=
  existsb (fun ev => is_submit (fst ev) && completed ev) tr.

(** The calls that follow the final submission. *)
Definition follows_submission (op : Op) : bool :=
  match op with
  | WaitForNavigation _ | WaitForTimeout _ | Close => true
  | _ => false
  end.

(** A page that always asks for a login, with no provider credentials
    configured. *)
Definition login_wall : World := {|
  env := {| IPTV_PROVIDER_URL := Some "https://panel.example";
            IPTV_PROVIDER_USERNAME := Some "reseller";
            IPTV_PROVIDER_PASSWORD := None;
            IPTV_SERVER_URL := None;
            IPTV_BACKUP_SERVERS := None;
            MAG_PORTAL_URL := None |};
  clock := sample_clock;
  random := fun _ => half;
  respond := fun _ _ => None;
  location := fun _ => "https://panel.example/login"
|}.

(** A provider whose confirmation page never settles: every call
    completes except the wait for the navigation. *)
Definition slow_confirmation : World := {|
  env := sample_env;
  clock := sample_clock;
  random := fun _ => half;
  respond := fun _ op =>
    match op with
    | WaitForNavigation _ => Some (JsError "Navigation timeout of 30000 ms exceeded")
    | _ => None
    end;
  location := fun _ => "https://panel.example/line"
|}.

(** The errors [purchasePlan] throws by itself, without any call failing. *)
Definition own_error (e : exn) : Prop :=
  e = JsError "IPTV_PROVIDER_URL not set in environment variables" \/
  e = JsError "IPTV provider credentials not set in environment variables" \/
  e = JsError "macAddress is required for MAG_DEVICE orders" \/
  InvalidInput e.

(* ================================================================== *)
(** * Properties *)

Example toString_2026 : Js.toString 2026 = "2026".
Proof. reflexivity. Qed.

Example toString_neg : Js.toString (-7) = "-7".
Proof. reflexivity. Qed.

Example split_at : Js.split "@" "jane.doe@example.com" = ["jane.doe"; "example.com"].
Proof. reflexivity. Qed.

Example username_jane :
  generateUsernameFromEmail
    {| getFullYear := 2026; getMonth := 10; getDate := 2; getHours := 9; getMinutes := 5 |}
    "jane.doe@example.com" = Normal "JANEDO2611020905".
Proof. vm_compute. reflexivity. Qed.

Example calm_standard_calls :
  trace (snd (purchasePlan instrumented calm "BASIC" "jane.doe@example.com"
                STANDARD None false))
  = [ (Launch (launchArgs instrumented), None);
      (NewPage, None);
      (SetDefaultTimeout 30000, None);
      (OnDialog, None);
      (Goto "https://panel.example/line" networkidle0, None);
      (Select "#package" "BASIC", None);
      (TypeText "#username" "JANEDO2611020905", None);
      (TypeText "#password" "nnnnnnnn", None);
      (Click "#user-details > ul > li > a", None);
      (WaitForSelector "#submit_button" true, None);
      (Click "#submit_button", None);
      (WaitForNavigation networkidle0, None);
      (WaitForTimeout 2000, None);
      (Close, None) ].
Proof. vm_compute. reflexivity. Qed.

Example calm_mag_result :
  fst (purchasePlan plain calm "BASIC" "jane.doe@example.com"
         MAG_DEVICE (Some "00:1A:2B:3C:4D:5E") false)
  = Normal {| username := "00:1A:2B:3C:4D:5E"; password := ""; success := true;
              error := None;
              macAddress := Some "00:1A:2B:3C:4D:5E";
              serverUrl := None;
              portalURL := Some "http://portal.example/c";
              m3uUrl := None; epgUrl := None; backupServers := None |}.
Proof. vm_compute. reflexivity. Qed.

Example password_const :
  generatePassword (fun _ => half) None = "nnnnnnnn".
Proof. vm_compute. reflexivity. Qed.

(** The product rounds: the exact value of [below_five_26ths * 26] is
    [22518398136852478 / 2^52 < 5], the binary64 product is 5. *)
Example randomIndex_rounds :
  in_unit_interval below_five_26ths /\
  (6928614811339224 * 26 < 5 * 2 ^ 55)%Z /\
  randomIndex below_five_26ths = Some 5%Z /\
  generatePassword (fun _ => below_five_26ths) (Some 1%Z) = "f".
Proof. vm_compute. repeat split; reflexivity. Qed.

Example password_sample_draws :
  generatePassword sample_draws (Some 12%Z) = "fzfzfzfzfzfz".
Proof. vm_compute. reflexivity. Qed.

(** The largest draw still gives the last letter. *)
Example randomIndex_largest :
  in_unit_interval largest_draw /\
  randomIndex largest_draw = Some 25%Z /\
  generatePassword (fun _ => largest_draw) (Some 2%Z) = "zz".
Proof. vm_compute. repeat split; reflexivity. Qed.

(* ------------------------------------------------------------------ *)
(** ** Strings *)

Section StringFacts.

Lemma str_length_app (s t : string) :
  String.length (s ++ t) = String.length s + String.length t.
Proof. induction s as [|c s IH]; simpl; [reflexivity | now rewrite IH]. Qed.

Lemma app_assoc_str (s t u : string) : (s ++ t) ++ u = s ++ (t ++ u).
Proof. induction s as [|c s IH]; simpl; [reflexivity | now rewrite IH]. Qed.

Lemma str_forallb_app (p : ascii -> bool) (s t : string) :
  Js.str_forallb p (s ++ t) = Js.str_forallb p s && Js.str_forallb p t.
Proof.
  induction s as [|c s IH]; simpl; [reflexivity|].
  now rewrite IH, andb_assoc.
Qed.

Lemma length_map (f : ascii -> ascii) (s : string) :
  String.length (Js.str_map f s) = String.length s.
Proof. induction s as [|c s IH]; simpl; [reflexivity | now rewrite IH]. Qed.

Lemma map_map_on (p : ascii -> bool) (f g h : ascii -> ascii) (s : string) :
  (forall c, p c = true -> f (g c) = h c) ->
  Js.str_forallb p s = true ->
  Js.str_map f (Js.str_map g s) = Js.str_map h s.
Proof.
  intros Hc. induction s as [|c s IH]; simpl; [reflexivity|].
  intros H. apply andb_true_iff in H as [Hp Hs].
  now rewrite Hc, IH.
Qed.

Lemma forallb_map_on (p q : ascii -> bool) (f : ascii -> ascii) (s : string) :
  (forall c, p c = true -> q (f c) = true) ->
  Js.str_forallb p s = true ->
  Js.str_forallb q (Js.str_map f s) = true.
Proof.
  intros Hc. induction s as [|c s IH]; simpl; [reflexivity|].
  intros H. apply andb_true_iff in H as [Hp Hs].
  now rewrite Hc, IH.
Qed.

Lemma forallb_filter (p : ascii -> bool) (s : string) :
  Js.str_forallb p (Js.str_filter p s) = true.
Proof.
  induction s as [|c s IH]; simpl; [reflexivity|].
  destruct (p c) eqn:E; simpl; [now rewrite E, IH | exact IH].
Qed.

Lemma filter_empty (p : ascii -> bool) (s : string) :
  Js.str_filter p s = "" <-> Js.str_existsb p s = false.
Proof.
  induction s as [|c s IH]; simpl; [tauto|].
  destruct (p c); simpl; [split; discriminate | exact IH].
Qed.

Lemma map_empty (f : ascii -> ascii) (s : string) :
  Js.str_map f s = "" <-> s = "".
Proof. destruct s; simpl; split; (reflexivity || discriminate). Qed.

Lemma substring_map (f : ascii -> ascii) (n : nat) (s : string) :
  substring 0 n (Js.str_map f s) = Js.str_map f (substring 0 n s).
Proof.
  revert s. induction n as [|n IH]; intros [|c s]; simpl; try reflexivity.
  now rewrite IH.
Qed.

Lemma substring_length_le (n : nat) (s : string) :
  String.length (substring 0 n s) <= n.
Proof.
  revert s. induction n as [|n IH]; intros [|c s]; simpl; try lia.
  specialize (IH s). lia.
Qed.

Lemma substring_nonempty (n : nat) (s : string) :
  s <> "" -> 1 <= String.length (substring 0 (S n) s).
Proof. destruct s; simpl; [congruence | lia]. Qed.

Lemma substring_forallb (p : ascii -> bool) (n : nat) (s : string) :
  Js.str_forallb p s = true -> Js.str_forallb p (substring 0 n s) = true.
Proof.
  revert s. induction n as [|n IH]; intros [|c s]; simpl; try reflexivity.
  intros H. apply andb_true_iff in H as [Hp Hs]. now rewrite Hp, IH.
Qed.

Lemma substring_skip (hi t : string) (n : nat) :
  substring (String.length hi) n (hi ++ t) = substring 0 n t.
Proof. induction hi as [|c hi IH]; simpl; [reflexivity | exact IH]. Qed.

End StringFacts.

(* ------------------------------------------------------------------ *)
(** ** Characters *)

Lemma upper_after_lower (c : ascii) :
  Js.isAlnum c = true -> Js.upperChar (Js.lowerChar c) = Js.upperChar c.
Proof.
  destruct c as [[] [] [] [] [] [] [] []]; vm_compute; intros H;
    first [reflexivity | discriminate H].
Qed.

Lemma upper_of_alnum (c : ascii) :
  Js.isAlnum c = true -> upper_or_digit (Js.upperChar c) = true.
Proof.
  destruct c as [[] [] [] [] [] [] [] []]; vm_compute; intros H;
    first [reflexivity | discriminate H].
Qed.

(* ------------------------------------------------------------------ *)
(** ** Decimal printing and the timestamp *)

Lemma digits_acc (fuel : nat) :
  forall n acc, Js.digits fuel n acc = Js.digits fuel n "" ++ acc.
Proof.
  induction fuel as [|fuel IH]; intros n acc; simpl; [reflexivity|].
  destruct (n / 10 =? 0)%Z; [reflexivity|].
  rewrite IH, (IH _ (String _ "")), app_assoc_str. reflexivity.
Qed.

(** From ten on, a printed number ends in its two lowest digits. *)
Lemma toString_ends (y : Z) :
  (10 <= y)%Z -> exists hi, Js.toString y = hi ++ two_digits (y mod 100).
Proof.
  intros Hy. unfold Js.toString.
  destruct (Z.ltb_spec y 0) as [Hneg|_]; [lia|].
  assert (Hlog : (3 <= Z.log2 y)%Z).
  { change 3%Z with (Z.log2 10). apply Z.log2_le_mono. exact Hy. }
  destruct (Z.to_nat (Z.log2 y)) as [|fuel] eqn:Ef; [lia|].
  assert (E1 : ((y mod 100) / 10 = (y / 10) mod 10)%Z)
    by (Z.to_euclidean_division_equations; lia).
  assert (E0 : ((y mod 100) mod 10 = y mod 10)%Z)
    by (Z.to_euclidean_division_equations; lia).
  unfold two_digits. rewrite E1, E0.
  cbn [Js.digits].
  destruct (Z.eqb_spec (y / 10) 0) as [H0|_].
  { assert (y < 10)%Z by (apply Z.div_small_iff in H0; lia). lia. }
  destruct (y / 10 / 10 =? 0)%Z.
  - exists "". reflexivity.
  - rewrite digits_acc. eexists. reflexivity.
Qed.

Lemma slice_last_two (y : Z) :
  (10 <= y)%Z -> Js.slice (-2) (Js.toString y) = two_digits (y mod 100).
Proof.
  intros Hy. destruct (toString_ends y Hy) as [hi ->].
  unfold Js.slice. rewrite str_length_app.
  change (String.length (two_digits (y mod 100))) with 2.
  destruct (Z.ltb_spec (-2) 0) as [_|]; [|lia].
  replace (Z.max (Z.of_nat (String.length hi + 2) + -2) 0)
    with (Z.of_nat (String.length hi)) by lia.
  rewrite Nat2Z.id.
  replace (Z.to_nat (Z.of_nat (String.length hi + 2) - Z.of_nat (String.length hi)))
    with 2 by lia.
  rewrite substring_skip. reflexivity.
Qed.

(** Below one hundred, padding the printed number gives both digits. *)
Lemma padStart_two (m : Z) :
  (0 <= m <= 99)%Z -> Js.padStart 2 "0" (Js.toString m) = two_digits m.
Proof.
  intros Hm.
  assert (Hall : forallb
            (fun k => Js.padStart 2 "0" (Js.toString (Z.of_nat k))
                      =? two_digits (Z.of_nat k))
            (seq 0 100) = true) by (vm_compute; reflexivity).
  rewrite forallb_forall in Hall.
  specialize (Hall (Z.to_nat m)).
  rewrite Z2Nat.id in Hall by lia.
  apply String.eqb_eq, Hall, in_seq. lia.
Qed.

Lemma timestamp_layout (now : Date) :
  wall_clock now -> timestamp now = YYMMDDHHmm now.
Proof.
  intros (Hy & Hmo & Hd & Hh & Hmi).
  unfold timestamp, YYMMDDHHmm.
  rewrite slice_last_two by exact Hy.
  rewrite !padStart_two by lia. reflexivity.
Qed.

Lemma digitChar_isDigit (d : Z) :
  (0 <= d <= 9)%Z -> Js.isDigit (Js.digitChar d) = true.
Proof.
  intros Hd.
  assert (Hall : forallb (fun k => Js.isDigit (Js.digitChar (Z.of_nat k)))
                         (seq 0 10) = true) by (vm_compute; reflexivity).
  rewrite forallb_forall in Hall.
  specialize (Hall (Z.to_nat d)).
  rewrite Z2Nat.id in Hall by lia.
  apply Hall, in_seq. lia.
Qed.

Lemma two_digits_ok (n : Z) :
  (0 <= n <= 99)%Z ->
  String.length (two_digits n) = 2 /\ Js.str_forallb Js.isDigit (two_digits n) = true.
Proof.
  intros Hn. split; [reflexivity|].
  unfold two_digits. cbn [Js.str_forallb].
  rewrite !digitChar_isDigit; [reflexivity| |].
  - pose proof (Z.mod_pos_bound n 10). lia.
  - assert (0 <= n / 10 < 10)%Z; [|lia].
    split; [apply Z.div_pos; lia | apply Z.div_lt_upper_bound; lia].
Qed.

Lemma YYMMDDHHmm_ok (now : Date) :
  wall_clock now ->
  String.length (YYMMDDHHmm now) = 10 /\
  Js.str_forallb Js.isDigit (YYMMDDHHmm now) = true.
Proof.
  intros (Hy & Hmo & Hd & Hh & Hmi).
  pose proof (Z.mod_pos_bound (getFullYear now) 100).
  unfold YYMMDDHHmm.
  destruct (two_digits_ok (getFullYear now mod 100)) as [L1 D1]; [lia|].
  destruct (two_digits_ok (getMonth now + 1)) as [L2 D2]; [lia|].
  destruct (two_digits_ok (getDate now)) as [L3 D3]; [lia|].
  destruct (two_digits_ok (getHours now)) as [L4 D4]; [lia|].
  destruct (two_digits_ok (getMinutes now)) as [L5 D5]; [lia|].
  rewrite !str_length_app, !str_forallb_app, L1, L2, L3, L4, L5, D1, D2, D3, D4, D5.
  split; reflexivity.
Qed.

(* ------------------------------------------------------------------ *)
(** ** Looking for the "@" *)

Lemma includes_at (s : string) : Js.includes "@" s = has_at s.
Proof.
  induction s as [|c s IH]; [reflexivity|].
  unfold has_at in *. cbn [Js.includes Js.str_existsb prefix].
  destruct (ascii_dec "@" c) as [<-|Hne].
  - rewrite Ascii.eqb_refl. destruct s; reflexivity.
  - apply Ascii.eqb_neq in Hne. rewrite Hne. exact IH.
Qed.

Lemma has_at_app (pre post : string) : has_at (pre ++ String "@" post) = true.
Proof.
  unfold has_at. induction pre as [|c pre IH]; cbn [append Js.str_existsb].
  - now rewrite Ascii.eqb_refl.
  - rewrite IH. apply orb_true_r.
Qed.

Lemma split_first (pre post : string) :
  has_at pre = false ->
  Js.split "@" (pre ++ String "@" post) = pre :: Js.split "@" post.
Proof.
  unfold has_at.
  induction pre as [|c pre IH]; cbn [append Js.str_existsb Js.split].
  - now rewrite Ascii.eqb_refl.
  - intros H. apply orb_false_iff in H as [Hc Hpre].
    rewrite Ascii.eqb_sym, Hc, (IH Hpre). reflexivity.
Qed.

Lemma has_at_first (s : string) :
  has_at s = true -> exists pre post, first_at s pre post.
Proof.
  unfold first_at, has_at.
  induction s as [|c s IH]; cbn [Js.str_existsb]; [discriminate|].
  destruct (Ascii.eqb "@" c) eqn:Ec; cbn [orb].
  - intros _. apply Ascii.eqb_eq in Ec as <-. exists "", s. split; reflexivity.
  - intros H. destruct (IH H) as (pre & post & -> & Hpre).
    exists (String c pre), post. cbn [append Js.str_existsb].
    rewrite Ec. split; [reflexivity | exact Hpre].
Qed.

(* ------------------------------------------------------------------ *)
(** ** [generateUsernameFromEmail] *)

Lemma username_no_at (now : Date) (email : string) :
  has_at email = false ->
  generateUsernameFromEmail now email = Abrupt (JsError "Invalid email address").
Proof.
  intros H. unfold generateUsernameFromEmail.
  rewrite includes_at, H, orb_true_r. reflexivity.
Qed.

Lemma prefix_part (pre : string) :
  Js.toUpperCase (substring 0 6 (Js.toLowerCase (Js.strip_non_alnum pre)))
  = derived_prefix pre.
Proof.
  unfold derived_prefix, Js.toUpperCase, Js.toLowerCase, Js.strip_non_alnum.
  rewrite <- substring_map.
  rewrite (map_map_on Js.isAlnum _ _ Js.upperChar);
    auto using upper_after_lower, forallb_filter.
Qed.

Lemma username_at (now : Date) (email pre post : string) :
  first_at email pre post ->
  generateUsernameFromEmail now email =
    if Js.str_existsb Js.isAlnum pre
    then Normal (derived_prefix pre ++ timestamp now)
    else Abrupt (JsError "Email prefix is invalid after cleaning").
Proof.
  intros [-> Hpre]. unfold generateUsernameFromEmail.
  rewrite includes_at, has_at_app, split_first by exact Hpre.
  replace (pre ++ String "@" post =? "") with false
    by (destruct pre; reflexivity).
  cbn [orb negb hd].
  destruct (Js.str_existsb Js.isAlnum pre) eqn:Ea.
  - destruct (String.eqb_spec (Js.toLowerCase (Js.strip_non_alnum pre)) "") as [E|_].
    + apply map_empty, filter_empty in E. congruence.
    + rewrite prefix_part. reflexivity.
  - apply filter_empty in Ea. unfold Js.strip_non_alnum. rewrite Ea. reflexivity.
Qed.

Lemma derived_prefix_shape (pre : string) :
  Js.str_existsb Js.isAlnum pre = true ->
  1 <= String.length (derived_prefix pre) <= 6 /\
  Js.str_forallb upper_or_digit (derived_prefix pre) = true.
Proof.
  intros Ha. unfold derived_prefix. repeat split.
  - apply substring_nonempty. intros E.
    apply map_empty, filter_empty in E. congruence.
  - apply substring_length_le.
  - apply substring_forallb.
    apply (forallb_map_on Js.isAlnum); auto using upper_of_alnum, forallb_filter.
Qed.

(** C3. For an email with an "@" and at least one ASCII letter or digit
    before the first one, and a wall clock, [generateUsernameFromEmail]
    returns the part before the "@" stripped of everything that is not a
    letter or digit, upper-cased and cut to six characters, followed by
    the ten digits YYMMDDHHmm of the call time: one to six upper-case
    letters or digits, then exactly ten digits, at most sixteen
    characters in all; the value is fixed by the clock and the part of
    the email before its first "@". *)
Theorem deriveUsername_shape (now : Date) (email pre post : string) :
  first_at email pre post ->
  Js.str_existsb Js.isAlnum pre = true ->
  wall_clock now ->
  generateUsernameFromEmail now email
    = Normal (derived_prefix pre ++ YYMMDDHHmm now) /\
  1 <= String.length (derived_prefix pre) <= 6 /\
  Js.str_forallb upper_or_digit (derived_prefix pre) = true /\
  String.length (YYMMDDHHmm now) = 10 /\
  Js.str_forallb Js.isDigit (YYMMDDHHmm now) = true /\
  String.length (derived_prefix pre ++ YYMMDDHHmm now) <= 16 /\
  (forall post',
     generateUsernameFromEmail now (pre ++ String "@" post')
     = generateUsernameFromEmail now email).
Proof.
  intros Hat Ha Hclock.
  destruct (derived_prefix_shape pre Ha) as [Hlen Hup].
  destruct (YYMMDDHHmm_ok now Hclock) as [Hten Hdig].
  repeat split; try assumption; try lia.
  - rewrite (username_at now email pre post Hat), Ha, timestamp_layout by assumption.
    reflexivity.
  - rewrite str_length_app. lia.
  - intros post'.
    rewrite (username_at now email pre post Hat).
    apply (username_at now _ pre post'). split; [reflexivity | apply Hat].
Qed.

(** C4. [generateUsernameFromEmail] throws exactly when the email is
    empty, has no "@", or has no ASCII letter or digit before its first
    "@"; what it throws is one of its two invalid-input errors, and on
    every other email it returns a username. *)
Theorem deriveUsername_rejects (now : Date) (email : string) :
  ((exists e, generateUsernameFromEmail now email = Abrupt e) <-> rejected email) /\
  (forall e, generateUsernameFromEmail now email = Abrupt e -> InvalidInput e) /\
  (~ rejected email -> exists u, generateUsernameFromEmail now email = Normal u).
Proof.
  destruct (has_at email) eqn:Hat.
  - destruct (has_at_first email Hat) as (pre & post & Hfirst).
    pose proof (username_at now email pre post Hfirst) as Hrun.
    destruct (Js.str_existsb Js.isAlnum pre) eqn:Ha.
    + assert (Hok : ~ rejected email).
      { intros [-> | [Hno | (pre' & post' & Hfirst' & Ha')]];
          [discriminate Hat | congruence |].
        rewrite (username_at now email pre' post' Hfirst'), Ha' in Hrun.
        discriminate Hrun. }
      repeat split.
      * intros [e He]. congruence.
      * intros Hrej. contradiction.
      * intros e He. congruence.
      * intros _. eexists. exact Hrun.
    + assert (Hrej : rejected email) by (right; right; eauto).
      repeat split.
      * intros _. exact Hrej.
      * intros _. eexists. exact Hrun.
      * intros e He. right. congruence.
      * intros Hok. contradiction.
  - pose proof (username_no_at now email Hat) as Hrun.
    assert (Hrej : rejected email) by (right; left; exact Hat).
    repeat split.
    + intros _. exact Hrej.
    + intros _. eexists. exact Hrun.
    + intros e He. left. congruence.
    + intros Hok. contradiction.
Qed.

(* ------------------------------------------------------------------ *)
(** ** [generatePassword] *)

(** *** Rounding of binary64 products *)

Section Binary64.

Local Open Scope Z_scope.

Lemma iter_pos_nat {A} (f : A -> A) (p : positive) :
  forall x, iter_pos f p x = Nat.iter (Pos.to_nat p) f x.
Proof.
  induction p as [p IH|p IH|]; intros x; cbn [iter_pos].
  - rewrite !IH, Pos2Nat.inj_xI, <- Nat.iter_succ_r, <- Nat.iter_add.
    f_equal. lia.
  - rewrite !IH, Pos2Nat.inj_xO, <- Nat.iter_add. f_equal. lia.
  - reflexivity.
Qed.

Lemma shr_1_spec (m : Z) (r s : bool) :
  0 <= m ->
  shr_1 {| shr_m := m; shr_r := r; shr_s := s |}
  = {| shr_m := m / 2; shr_r := Z.odd m; shr_s := r || s |}.
Proof.
  intros Hm. rewrite <- Z.div2_div.
  destruct m as [|[p|p|]|p]; try reflexivity. lia.
Qed.

Lemma shr_iter (k : nat) (m : Z) (r s : bool) :
  0 <= m ->
  shr_m (Nat.iter k shr_1 {| shr_m := m; shr_r := r; shr_s := s |})
  = m / 2 ^ Z.of_nat k /\
  (forall j, k = S j ->
     shr_r (Nat.iter k shr_1 {| shr_m := m; shr_r := r; shr_s := s |})
     = Z.odd (m / 2 ^ Z.of_nat j)).
Proof.
  intros Hm. induction k as [|k [IHm IHr]].
  - cbn. split; [now rewrite Z.div_1_r | discriminate].
  - rewrite !Nat.iter_succ.
    destruct (Nat.iter k shr_1 _) as [m' r' s'] eqn:E. cbn [shr_m shr_r] in *.
    subst m'. rewrite shr_1_spec by (apply Z.div_pos; lia). cbn [shr_m shr_r].
    split.
    + rewrite Nat2Z.inj_succ, Z.pow_succ_r by lia.
      rewrite Z.div_div by lia. f_equal. lia.
    + intros j Hj. injection Hj as <-. reflexivity.
Qed.


(** Shifting an exact mantissa right by [n] places truncates it, and
    rounding the outcome to nearest adds at most half a unit. *)
Lemma shr_exact (m e n : Z) :
  0 <= m ->
  exists t,
    t = Z.max n 0 /\
    snd (shr {| shr_m := m; shr_r := false; shr_s := false |} e n) = e + t /\
    0 <= shr_m (fst (shr {| shr_m := m; shr_r := false; shr_s := false |} e n)) /\
    shr_m (fst (shr {| shr_m := m; shr_r := false; shr_s := false |} e n)) * 2 ^ t <= m /\
    0 <= rounded (fst (shr {| shr_m := m; shr_r := false; shr_s := false |} e n)) /\
    (t = 0 /\ rounded (fst (shr {| shr_m := m; shr_r := false; shr_s := false |} e n)) = m \/
     1 <= t /\
     rounded (fst (shr {| shr_m := m; shr_r := false; shr_s := false |} e n)) * 2 ^ t
     <= m + 2 ^ (t - 1)).
Proof.
  intros Hm. unfold shr, rounded. destruct n as [|p|p].
  - exists 0. cbn. repeat split; lia.
  - exists (Zpos p). cbn [fst snd]. rewrite iter_pos_nat.
    destruct (shr_iter (Pos.to_nat p) m false false Hm) as [Hq Hr].
    rewrite positive_nat_Z in Hq.
    destruct (Nat.iter (Pos.to_nat p) shr_1 _) as [m1 r1 s1] eqn:Eiter.
    cbn [shr_m shr_r] in *.
    set (A := 2 ^ (Zpos p - 1)).
    assert (HA : 0 < A) by (apply Z.pow_pos_nonneg; lia).
    assert (H2A : 2 ^ Zpos p = A * 2).
    { unfold A. rewrite Z.mul_comm, <- (Z.pow_succ_r 2 (Zpos p - 1)) by lia.
      f_equal. lia. }
    assert (Hr1 : r1 = Z.odd (m / A)).
    { destruct (Pos.to_nat p) as [|j] eqn:Ej; [lia|].
      rewrite (Hr j eq_refl). unfold A. do 3 f_equal. lia. }
    assert (Hm1 : m1 = m / A / 2) by (rewrite Hq, H2A, Z.div_div by lia; reflexivity).
    pose proof (Z.mul_div_le m A HA) as HqA.
    pose proof (Zmod_odd (m / A)) as Hodd. rewrite <- Hr1 in Hodd.
    pose proof (Z.div_mod (m / A) 2 ltac:(lia)) as Hdm.
    assert (Hq0 : 0 <= m / A) by (apply Z.div_pos; lia).
    assert (Hm10 : 0 <= m1) by (rewrite Hm1; apply Z.div_pos; lia).
    rewrite <- Hm1 in Hdm.
    rewrite H2A.
    assert (Hround : m1 <= round_nearest_even m1
                              (loc_of_shr_record
                                 {| shr_m := m1; shr_r := r1; shr_s := s1 |})
                      <= m1 + (if r1 then 1 else 0)).
    { destruct r1, s1; cbn; try lia. destruct (Z.even m1); lia. }
    split; [lia|]. split; [reflexivity|]. split; [exact Hm10|].
    split; [destruct r1; nia|]. split; [lia|].
    right. split; [lia|].
    fold A. destruct r1; nia.
  - exists 0. cbn. repeat split; lia.
Qed.

Lemma digits2_bounds (p : positive) :
  2 ^ (Zpos (digits2_pos p) - 1) <= Zpos p < 2 ^ Zpos (digits2_pos p).
Proof.
  induction p as [p IH|p IH|]; cbn [digits2_pos].
  - rewrite Pos2Z.inj_succ, Z.pow_succ_r by lia.
    replace (Z.succ (Zpos (digits2_pos p)) - 1)
      with (Z.succ (Zpos (digits2_pos p) - 1)) by lia.
    rewrite Z.pow_succ_r by lia. lia.
  - rewrite Pos2Z.inj_succ, Z.pow_succ_r by lia.
    replace (Z.succ (Zpos (digits2_pos p)) - 1)
      with (Z.succ (Zpos (digits2_pos p) - 1)) by lia.
    rewrite Z.pow_succ_r by lia. lia.
  - cbn. lia.
Qed.

Lemma digits2_le (p : positive) (d : Z) :
  0 <= d -> Zpos p < 2 ^ d -> Zpos (digits2_pos p) <= d.
Proof.
  intros Hd Hp. destruct (digits2_bounds p) as [Hlo _].
  destruct (Z.le_gt_cases (Zpos (digits2_pos p)) d) as [H|H]; [exact H|].
  exfalso.
  assert (2 ^ d <= 2 ^ (Zpos (digits2_pos p) - 1))
    by (apply Z.pow_le_mono_r; lia).
  lia.
Qed.

(** The floor of a non-negative binary number [m * 2^(T-K)] that lies
    below [b] is an integer of [0, b). *)
Lemma shiftl_below (m T K b : Z) :
  0 <= m -> 0 <= T -> 0 <= K -> 0 < b ->
  m * 2 ^ T < b * 2 ^ K ->
  0 <= Z.shiftl m (T - K) < b.
Proof.
  intros Hm HT HK Hb H. destruct (Z.le_gt_cases 0 (T - K)) as [He|He].
  - rewrite Z.shiftl_mul_pow2 by lia.
    assert (H1 : 0 < 2 ^ (T - K)) by (apply Z.pow_pos_nonneg; lia).
    assert (H2 : 0 < 2 ^ K) by (apply Z.pow_pos_nonneg; lia).
    replace T with (T - K + K) in H by lia.
    rewrite Z.pow_add_r in H by lia.
    split; [apply Z.mul_nonneg_nonneg; lia|].
    rewrite Z.mul_assoc in H.
    apply Z.mul_lt_mono_pos_r in H; assumption.
  - rewrite Z.shiftl_div_pow2 by lia.
    replace (- (T - K)) with (K - T) by lia.
    assert (H1 : 0 < 2 ^ (K - T)) by (apply Z.pow_pos_nonneg; lia).
    assert (H2 : 0 < 2 ^ T) by (apply Z.pow_pos_nonneg; lia).
    replace K with (K - T + T) in H at 1 by lia.
    rewrite Z.pow_add_r in H by lia.
    rewrite Z.mul_assoc in H.
    apply Z.mul_lt_mono_pos_r in H; [|assumption].
    split; [apply Z.div_pos; lia|].
    apply Z.div_lt_upper_bound; lia.
Qed.

(** The binary64 product of a double [m * 2^e] of [0, 1) and 26: the
    rounded product still has its floor in [0, 26). *)
Lemma product_floor (m : positive) (e : Z) :
  -1074 <= e <= -53 -> Zpos m < 2 ^ 53 ->
  exists i,
    Math_floor (binary_round_aux 53 1024 false
                  (Zpos (m * 7318349394477056)) (e + -48) loc_Exact) = Some i /\
    0 <= i < 26.
Proof.
  intros He Hm.
  assert (Hme : Zpos m + 1 <= 2 ^ (- e)).
  { assert (2 ^ 53 <= 2 ^ (- e)) by (apply Z.pow_le_mono_r; lia). lia. }
  set (K := 48 - e).
  assert (HK : 2 ^ K = 2 ^ 48 * 2 ^ (- e))
    by (unfold K; rewrite <- Z.pow_add_r by lia; f_equal; lia).
  assert (H48 : 2 ^ 48 = 281474976710656) by reflexivity.
  assert (H53 : 2 ^ 53 = 9007199254740992) by reflexivity.
  assert (HP : Zpos (m * 7318349394477056) = Zpos m * (26 * 2 ^ 48))
    by (rewrite Pos2Z.inj_mul, H48; reflexivity).
  assert (HPK : Zpos (m * 7318349394477056) + 26 * 2 ^ 48 <= 26 * 2 ^ K).
  { rewrite HP, HK. nia. }
  assert (HPd : Zpos (digits2_pos (m * 7318349394477056)) <= 106).
  { apply digits2_le; [lia|]. rewrite HP.
    change (2 ^ 106) with (2 ^ 53 * 2 ^ 53). rewrite H48. nia. }
  remember (Zpos (m * 7318349394477056)) as P eqn:EP.
  unfold binary_round_aux, shr_fexp.
  cbn [shr_record_of_loc].
  set (n1 := fexp 53 1024 (Zdigits2 P + (e + -48)) - (e + -48)).
  assert (Hn1 : n1 <= 53).
  { unfold n1, fexp, emin. rewrite EP. cbn [Zdigits2]. lia. }
  destruct (shr_exact P (e + -48) n1 ltac:(lia))
    as (t1 & Ht1 & He1 & _ & _ & Hm2 & Hr1).
  destruct (shr _ (e + -48) n1) as [mrs1 e1]. cbn [fst snd] in *.
  fold (rounded mrs1). set (m2 := rounded mrs1) in *.
  set (n2 := fexp 53 1024 (Zdigits2 m2 + e1) - e1).
  destruct (shr_exact m2 e1 n2 Hm2)
    as (t2 & Ht2 & He2 & Hm3 & Hr2 & _ & _).
  destruct (shr _ e1 n2) as [mrs2 e2]. cbn [fst snd] in *.
  set (m3 := shr_m mrs2) in *.
  assert (Ht1' : 0 <= t1 <= 53) by lia.
  assert (Ht2' : 0 <= t2) by lia.
  assert (Hp1 : 0 < 2 ^ t1) by (apply Z.pow_pos_nonneg; lia).
  assert (Hhalf : m2 * 2 ^ t1 < P + 26 * 2 ^ 48).
  { destruct Hr1 as [[-> ->]|[H1 Hr1]]; [lia|].
    assert (2 ^ (t1 - 1) <= 2 ^ 52) by (apply Z.pow_le_mono_r; lia).
    change (2 ^ 52) with 4503599627370496 in *. lia. }
  assert (Hall : m3 * 2 ^ (t1 + t2) < 26 * 2 ^ K).
  { rewrite Z.pow_add_r by lia.
    assert (m3 * 2 ^ t2 * 2 ^ t1 <= m2 * 2 ^ t1)
      by (apply Z.mul_le_mono_nonneg_r; lia).
    lia. }
  assert (He2' : e2 = t1 + t2 - K) by (unfold K; lia).
  pose proof (shiftl_below m3 (t1 + t2) K 26 Hm3 ltac:(lia) ltac:(unfold K; lia)
                ltac:(lia) Hall) as Hfloor.
  rewrite <- He2' in Hfloor.
  destruct m3 as [|p|p] eqn:E3; [| |lia].
  - exists 0. split; [reflexivity|lia].
  - assert (Hle : (e2 <=? 1024 - 53) = true).
    { apply Z.leb_le.
      destruct (Z.le_gt_cases e2 971) as [H|H]; [exact H|exfalso].
      rewrite Z.shiftl_mul_pow2 in Hfloor by lia.
      assert (2 ^ 5 <= 2 ^ e2) by (apply Z.pow_le_mono_r; lia).
      change (2 ^ 5) with 32 in *. nia. }
    rewrite Hle. cbn [Math_floor cond_Zopp].
    exists (Z.shiftl (Zpos p) e2). split; [reflexivity|exact Hfloor].
Qed.

Lemma number_of_charset_length :
  number_of_Z (Z.of_nat (String.length charset))
  = S754_finite false 7318349394477056 (-48).
Proof. vm_compute. reflexivity. Qed.

Lemma SFone_binary64 : SFone 53 1024 = S754_finite false 4503599627370496 (-52).
Proof. vm_compute. reflexivity. Qed.

(** A finite positive draw below 1 has an exponent of at most -53 and a
    mantissa of at most 53 bits. *)
Lemma unit_interval_finite (m : positive) (e : Z) :
  in_unit_interval (S754_finite false m e) ->
  -1074 <= e <= -53 /\ Zpos m < 2 ^ 53.
Proof.
  intros (Hv & _ & H1).
  unfold valid_binary, bounded, canonical_mantissa, fexp, emin in Hv.
  apply andb_prop in Hv as [Hc _]. apply Z.eqb_eq in Hc.
  destruct (digits2_bounds m) as [Hlo Hhi].
  rewrite SFone_binary64 in H1. unfold SFltb, SFcompare in H1.
  destruct (Z.compare_spec e (-52)) as [->|Hlt|Hgt]; [ | |discriminate].
  - exfalso.
    destruct (Pos.compare_cont Eq m 4503599627370496) eqn:Ec; try discriminate.
    assert (Hm : Zpos m < 4503599627370496) by exact Ec.
    assert (Hd : Zpos (digits2_pos m) = 53) by lia.
    rewrite Hd in Hlo. change (2 ^ (53 - 1)) with 4503599627370496 in Hlo. lia.
  - split; [lia|].
    apply Z.lt_le_trans with (2 ^ Zpos (digits2_pos m)); [exact Hhi|].
    apply Z.pow_le_mono_r; lia.
Qed.

(** [Math.floor(Math.random() * charset.length)] is an index of
    [charset] for every draw of [0, 1). *)
Lemma randomIndex_range (r : number) :
  in_unit_interval r -> exists i, randomIndex r = Some i /\ 0 <= i < 26.
Proof.
  intros Hr. unfold randomIndex, number_mul.
  rewrite number_of_charset_length.
  destruct r as [s|s| |s m e].
  - exists 0. split; [reflexivity|lia].
  - destruct Hr as (_ & H0 & H1). destruct s; discriminate.
  - destruct Hr as (_ & H0 & _). discriminate.
  - destruct s; [destruct Hr as (_ & H0 & _); discriminate|].
    destruct (unit_interval_finite m e Hr) as [He Hm].
    exact (product_floor m e He Hm).
Qed.

(** The same number gives the same index. *)
Lemma randomIndex_same (x y : number) :
  same_number x y -> randomIndex x = randomIndex y.
Proof.
  intros [->|H]; [reflexivity|].
  unfold randomIndex, number_mul. rewrite number_of_charset_length.
  unfold SFeqb, SFcompare in H.
  destruct x as [sx|sx| |sx mx ex], y as [sy|sy| |sy my ey];
    try discriminate; try reflexivity;
    try (destruct sx; discriminate); try (destruct sy; discriminate).
  destruct sx, sy; try discriminate;
    destruct (Z.compare_spec ex ey) as [->| |]; try discriminate;
    destruct (Pos.compare_cont Eq mx my) eqn:Ec; try discriminate;
    apply (Pos.compare_eq mx my) in Ec; subst; reflexivity.
Qed.

End Binary64.

Lemma append_charAt_lower (password : string) (i : Z) :
  (0 <= i < 26)%Z ->
  exists c, append_charAt password (Some i) = password ++ String c "" /\
            Js.isLower c = true.
Proof.
  intros Hi.
  assert (Hall : forallb
            (fun k => match String.get k charset with
                      | Some c => Js.isLower c
                      | None => false
                      end) (seq 0 26) = true) by (vm_compute; reflexivity).
  rewrite forallb_forall in Hall.
  specialize (Hall (Z.to_nat i)).
  unfold append_charAt.
  destruct (Z.ltb_spec i 0) as [|_]; [lia|].
  destruct (String.get (Z.to_nat i) charset) as [c|].
  - exists c. split; [reflexivity|]. apply Hall, in_seq. lia.
  - discriminate Hall. apply in_seq. lia.
Qed.

Lemma password_loop (random : nat -> number) (l : list nat) :
  unit_interval random ->
  forall password,
    let result := fold_left
      (fun password i => append_charAt password (randomIndex (random i))) l password in
    String.length result = String.length password + List.length l /\
    (Js.str_forallb Js.isLower password = true ->
     Js.str_forallb Js.isLower result = true).
Proof.
  intros Hr. induction l as [|i l IH]; intros password; cbn [fold_left List.length].
  - split; [lia | tauto].
  - destruct (randomIndex_range (random i) (Hr i)) as (j & -> & Hj).
    destruct (append_charAt_lower password j Hj) as (c & -> & Hc).
    destruct (IH (password ++ String c "")) as [Hlen Hlow].
    split.
    + rewrite Hlen, str_length_app. simpl. lia.
    + intros Hp. apply Hlow. rewrite str_forallb_app, Hp. simpl. now rewrite Hc.
Qed.

(** C9. With draws of [Math.random()] in [0, 1), each multiplied by
    [charset.length] in binary64 arithmetic, [generatePassword(n)]
    returns exactly [n] characters, each a lower-case letter from "a" to
    "z"; without an argument it returns eight of them. *)
Theorem generatePassword_shape (random : nat -> number) (n : Z) :
  unit_interval random ->
  (0 <= n)%Z ->
  (Z.of_nat (String.length (generatePassword random (Some n))) = n /\
   Js.str_forallb Js.isLower (generatePassword random (Some n)) = true) /\
  (generatePassword random None = generatePassword random (Some 8%Z) /\
   String.length (generatePassword random None) = 8 /\
   Js.str_forallb Js.isLower (generatePassword random None) = true).
Proof.
  intros Hr Hn.
  assert (Hshape : forall m, (0 <= m)%Z ->
            Z.of_nat (String.length (generatePassword random (Some m))) = m /\
            Js.str_forallb Js.isLower (generatePassword random (Some m)) = true).
  { intros m Hm. unfold generatePassword.
    destruct (password_loop random (seq 0 (Z.to_nat m)) Hr "") as [Hlen Hlow].
    split.
    - rewrite Hlen, length_seq. simpl. lia.
    - apply Hlow. reflexivity. }
  split; [apply Hshape, Hn|].
  destruct (Hshape 8%Z) as [Hlen Hlow]; [lia|].
  change (generatePassword random None) with (generatePassword random (Some 8%Z)).
  repeat split; [lia | exact Hlow].
Qed.

(* ------------------------------------------------------------------ *)
(** ** Rules for running the orchestrator *)

Section Rules.

Variable b : Build.
Variable w : World.
Context {A B : Type}.
Implicit Types (Q : A -> St -> Prop) (E : exn -> St -> Prop) (st : St).

Lemma wp_ret (a : A) Q E st : Q a st -> wp (ret a) Q E st.
Proof. exact (fun H => H). Qed.

Lemma wp_throw (e : exn) Q E st : E e st -> wp (@throw A e) Q E st.
Proof. exact (fun H => H). Qed.

Lemma wp_bind (m : M B) (f : B -> M A) Q E st :
  wp m (fun x st' => wp (f x) Q E st') E st -> wp (bind m f) Q E st.
Proof.
  unfold wp, bind. destruct (m st) as [[x|e] st']; exact (fun H => H).
Qed.

Lemma wp_lift (c : completion A) Q E st :
  (forall a, c = Normal a -> Q a st) ->
  (forall e, c = Abrupt e -> E e st) ->
  wp (lift c) Q E st.
Proof. destruct c; unfold wp; cbn; auto. Qed.

End Rules.

Section CallRules.

Variable b : Build.
Variable w : World.
Implicit Types (Q : unit -> St -> Prop) (E : exn -> St -> Prop).

Lemma wp_call (op : Op) Q E br tr co :
  (respond w tr op = None ->
   Q tt {| browser := br; trace := tr ++ [(op, None)]; console := co |}) ->
  (forall e, respond w tr op = Some e ->
   E e {| browser := br; trace := tr ++ [(op, Some e)]; console := co |}) ->
  wp (call w op) Q E {| browser := br; trace := tr; console := co |}.
Proof.
  unfold wp, call. cbn [trace browser console].
  destruct (respond w tr op) as [e|]; auto.
Qed.

Lemma wp_launch Q E br tr co :
  (respond w tr (Launch (launchArgs b)) = None ->
   Q tt {| browser := true; trace := tr ++ [(Launch (launchArgs b), None)];
           console := co |}) ->
  (forall e, respond w tr (Launch (launchArgs b)) = Some e ->
   E e {| browser := br; trace := tr ++ [(Launch (launchArgs b), Some e)];
          console := co |}) ->
  wp (launch b w) Q E {| browser := br; trace := tr; console := co |}.
Proof.
  intros HQ HE. unfold launch. apply wp_bind, wp_call; [exact HQ | exact HE].
Qed.

Lemma wp_close_if_assigned Q E br tr co :
  (br = false -> Q tt {| browser := br; trace := tr; console := co |}) ->
  (br = true -> wp (call w Close) Q E {| browser := br; trace := tr; console := co |}) ->
  wp (close_if_assigned w) Q E {| browser := br; trace := tr; console := co |}.
Proof.
  unfold wp at 2, close_if_assigned. cbn [browser].
  destruct br; intros H0 H1; [apply H1 | apply H0]; reflexivity.
Qed.

Lemma wp_page_url (Q : string -> St -> Prop) E br tr co :
  Q (location w tr) {| browser := br; trace := tr; console := co |} ->
  wp (page_url w) Q E {| browser := br; trace := tr; console := co |}.
Proof. exact (fun H => H). Qed.

End CallRules.

(** One step of the run: split a sequence, answer a call both ways, or
    decide a test. *)
Ltac wp_step :=
  lazymatch goal with
  | |- wp (bind _ _) _ _ _ => apply wp_bind
  | |- wp (ret _) _ _ _ => apply wp_ret
  | |- wp (throw _) _ _ _ => apply wp_throw
  | |- wp (call _ _) _ _ _ => apply wp_call; [intros _ | intros ? _]
  | |- wp (launch _ _) _ _ _ => apply wp_launch; [intros _ | intros ? _]
  | |- wp (close_if_assigned _) _ _ _ =>
      apply wp_close_if_assigned; [intros ?; try discriminate | intros _]
  | |- wp (page_url _) _ _ _ => apply wp_page_url
  | |- wp (lift _) _ _ _ => apply wp_lift; [intros ? ? | intros ? ?]
  | |- wp (if ?c then _ else _) _ _ _ => destruct c eqn:?
  | |- wp (match ?o with STANDARD => _ | MAG_DEVICE => _ end) _ _ _ => destruct o
  | |- wp (match ?o with Some _ => _ | None => _ end) _ _ _ => destruct o eqn:?
  end;
  cbv beta iota zeta; cbn [browser trace console app].

Ltac wp_run := unfold attempt, recover; repeat wp_step.

(* ------------------------------------------------------------------ *)
(** ** What the [try] block returns *)

Lemma attempt_returns (b : Build) (w : World) (planId email : string)
    (orderType : OrderType) (macAddress : option string) (st : St) :
  wp (attempt b w planId email orderType macAddress)
     (fun r _ => exists username password,
        r = assemble (env w) orderType macAddress username password /\
        match orderType with
        | STANDARD =>
            generateUsernameFromEmail (clock w) email = Normal username /\
            password = generatePassword (random w) None
        | MAG_DEVICE =>
            truthy macAddress = true /\
            username = or_else macAddress "" /\ password = ""
        end)
     (fun _ _ => True) st.
Proof.
  destruct st as [br tr co]. wp_run; eauto 6.
Qed.

(* ------------------------------------------------------------------ *)
(** ** Counting calls *)

Lemma close_calls_app (tr1 tr2 : list Event) :
  close_calls (tr1 ++ tr2) = close_calls tr1 + close_calls tr2.
Proof. unfold close_calls. now rewrite filter_app, length_app. Qed.

Lemma releases_app (tr1 tr2 : list Event) :
  releases (tr1 ++ tr2) = releases tr1 + releases tr2.
Proof. unfold releases. now rewrite filter_app, length_app. Qed.

Lemma acquired_app (tr1 tr2 : list Event) :
  acquired (tr1 ++ tr2) = acquired tr1 || acquired tr2.
Proof. apply existsb_app. Qed.

Lemma plan_selected_app (tr1 tr2 : list Event) :
  plan_selected (tr1 ++ tr2) = plan_selected tr1 || plan_selected tr2.
Proof. apply existsb_app. Qed.

Ltac in_trace := cbn [In]; repeat (first [left; reflexivity | right]).

(* ------------------------------------------------------------------ *)
(** ** The release discipline of the [try] block *)

(** How the [try] block leaves the session: returned, it has closed it
    once; thrown before the launch completed, it holds none; thrown
    later, it holds one that is still to be released. *)
Lemma attempt_release (b : Build) (w : World) (planId email : string)
    (orderType : OrderType) (macAddress : option string) (co : list string) :
  wp (attempt b w planId email orderType macAddress)
     (fun _ st =>
        acquired (trace st) = true /\
        close_calls (trace st) = 1 /\ releases (trace st) = 1)
     (fun _ st =>
        (browser st = false /\ acquired (trace st) = false /\
         close_calls (trace st) = 0 /\ releases (trace st) = 0) \/
        (browser st = true /\ acquired (trace st) = true /\
         releases (trace st) = 0 /\
         (close_calls (trace st) = 0 \/
          close_calls (trace st) = 1 /\ exists e, In (Close, Some e) (trace st))))
     (entry co).
Proof.
  unfold entry. wp_run;
    first [ left; repeat split; reflexivity
          | right; repeat split; try reflexivity;
            first [ left; reflexivity
                  | right; split; [reflexivity | eexists; in_trace] ]
          | repeat split; reflexivity ].
Qed.

(* ------------------------------------------------------------------ *)
(** ** The end of a successful run of the instrumented copy *)

Lemma instrumented_settles (w : World) (planId email : string)
    (orderType : OrderType) (macAddress : option string) (co : list string) :
  wp (attempt instrumented w planId email orderType macAddress)
     (fun _ st =>
        last_calls 4 (trace st) =
          [ (Click "#submit_button", None);
            (WaitForNavigation networkidle0, None);
            (WaitForTimeout 2000, None);
            (Close, None) ])
     (fun _ _ => True)
     (entry co).
Proof.
  unfold entry, attempt. cbn [settle idle instrumented].
  repeat wp_step; first [exact I | reflexivity].
Qed.

(** The other copy never pauses: its successful runs end with the click,
    the wait until at most two requests are in flight, and the release. *)
Lemma plain_never_settles (w : World) (planId email : string)
    (orderType : OrderType) (macAddress : option string) (co : list string) :
  wp (attempt plain w planId email orderType macAddress)
     (fun _ st =>
        last_calls 3 (trace st) =
          [ (Click "#submit_button", None);
            (WaitForNavigation networkidle2, None);
            (Close, None) ] /\
        existsb is_timeout (trace st) = false)
     (fun _ _ => True)
     (entry co).
Proof.
  unfold entry, attempt. cbn [settle idle plain].
  repeat wp_step; first [exact I | split; reflexivity].
Qed.

(* ------------------------------------------------------------------ *)
(** ** A MAG order without its MAC address *)

Lemma attempt_without_mac (b : Build) (w : World) (planId email : string)
    (macAddress : option string) (co : list string) :
  truthy macAddress = false ->
  wp (attempt b w planId email MAG_DEVICE macAddress)
     (fun _ _ => False)
     (fun e st =>
        plan_selected (trace st) = true ->
        e = JsError "macAddress is required for MAG_DEVICE orders")
     (entry co).
Proof.
  intros Hmac. unfold entry, attempt. rewrite Hmac.
  repeat wp_step; first [discriminate | reflexivity | intros _; reflexivity].
Qed.

(* ------------------------------------------------------------------ *)
(** ** Nothing depends on the console *)

Section Blind.

Variable b : Build.
Variable w : World.

Lemma blind_ret {A} (a : A) : console_blind (ret a).
Proof. intros st1 st2 H. split; [reflexivity | exact H]. Qed.

Lemma blind_throw {A} (e : exn) : console_blind (@throw A e).
Proof. intros st1 st2 H. split; [reflexivity | exact H]. Qed.

Lemma blind_bind {A B} (m : M A) (f : A -> M B) :
  console_blind m -> (forall a, console_blind (f a)) -> console_blind (bind m f).
Proof.
  intros Hm Hf st1 st2 H. unfold bind.
  destruct (Hm st1 st2 H) as [Ho Hs].
  destruct (m st1) as [[a1|e1] s1], (m st2) as [[a2|e2] s2];
    cbn [fst snd] in Ho, Hs; try discriminate Ho.
  - injection Ho as ->. apply Hf, Hs.
  - injection Ho as ->. split; [reflexivity | exact Hs].
Qed.

Lemma blind_try_catch {A} (m : M A) (h : exn -> M A) :
  console_blind m -> (forall e, console_blind (h e)) -> console_blind (try_catch m h).
Proof.
  intros Hm Hh st1 st2 H. unfold try_catch.
  destruct (Hm st1 st2 H) as [Ho Hs].
  destruct (m st1) as [[a1|e1] s1], (m st2) as [[a2|e2] s2];
    cbn [fst snd] in Ho, Hs; try discriminate Ho.
  - split; [exact Ho | exact Hs].
  - injection Ho as ->. apply Hh, Hs.
Qed.

Lemma blind_call (op : Op) : console_blind (call w op).
Proof.
  intros [br1 tr1 co1] [br2 tr2 co2] [Hb Ht]. cbn [browser trace] in Hb, Ht.
  subst br2 tr2. unfold call. cbn [browser trace console].
  destruct (respond w tr1 op); split; try reflexivity; split; reflexivity.
Qed.

Lemma blind_launch : console_blind (launch b w).
Proof.
  unfold launch. apply blind_bind; [apply blind_call|].
  intros _ st1 st2 [Hb Ht]. split; [reflexivity|]. split; [reflexivity | exact Ht].
Qed.

Lemma blind_close_if_assigned : console_blind (close_if_assigned w).
Proof.
  intros [br1 tr1 co1] [br2 tr2 co2] [Hb Ht]. cbn [browser trace] in Hb, Ht.
  subst br2 tr2. unfold close_if_assigned. cbn [browser].
  destruct br1.
  - apply blind_call. split; reflexivity.
  - split; [reflexivity|]. split; reflexivity.
Qed.

Lemma blind_page_url : console_blind (page_url w).
Proof.
  intros st1 st2 [Hb Ht]. unfold page_url. rewrite Ht.
  split; [reflexivity|]. split; assumption.
Qed.

Lemma blind_lift {A} (c : completion A) : console_blind (lift c).
Proof. destruct c; [apply blind_ret | apply blind_throw]. Qed.

Lemma blind_recover (e : exn) : console_blind (recover w e).
Proof.
  unfold recover. apply blind_bind; [apply blind_close_if_assigned|].
  intros _. apply blind_ret.
Qed.

Lemma blind_attempt (planId email : string) (orderType : OrderType)
    (macAddress : option string) :
  console_blind (attempt b w planId email orderType macAddress).
Proof.
  unfold attempt.
  repeat first
    [ apply blind_launch | apply blind_close_if_assigned
    | apply blind_page_url | apply blind_lift
    | apply blind_ret | apply blind_throw | apply blind_call
    | apply blind_bind; [|intros ?]
    | match goal with
      | |- console_blind (if ?c then _ else _) => destruct c
      | |- console_blind (match ?o with STANDARD => _ | MAG_DEVICE => _ end) =>
          destruct o
      | |- console_blind (match ?o with Some _ => _ | None => _ end) => destruct o
      | |- console_blind (let '(_, _) := ?p in _) => destruct p
      end ].
Qed.

End Blind.

(* ------------------------------------------------------------------ *)
(** ** [purchasePlan] *)

Lemma purchasePlan_unfold (b : Build) (w : World) (planId email : string)
    (orderType : OrderType) (macAddress : option string) (isFreeTrial : bool) :
  purchasePlan b w planId email orderType macAddress isFreeTrial
  = try_catch (attempt b w planId email orderType macAddress) (recover w)
      (entry (if logging b
              then [start_line planId email orderType isFreeTrial] else [])).
Proof. unfold purchasePlan, bind, log, init, entry. destruct (logging b); reflexivity. Qed.

(** What the [catch] block does with the state the [try] block left. *)
Lemma recover_cases (w : World) (e : exn) (st : St) :
  (browser st = false /\ recover w e st = (Normal (failed e), st)) \/
  (browser st = true /\ respond w (trace st) Close = None /\
   recover w e st =
     (Normal (failed e),
      {| browser := true; trace := trace st ++ [(Close, None)];
         console := console st |})) \/
  (browser st = true /\ exists e', respond w (trace st) Close = Some e' /\
   recover w e st =
     (Abrupt e',
      {| browser := true; trace := trace st ++ [(Close, Some e')];
         console := console st |})).
Proof.
  destruct st as [br tr co]. unfold recover, bind, close_if_assigned, call, ret.
  cbn [browser trace console].
  destruct br; [|left; split; reflexivity].
  right. destruct (respond w tr Close) as [e'|].
  - right. split; [reflexivity|]. exists e'. split; reflexivity.
  - left. repeat split; reflexivity.
Qed.

(** A result with [success: true] is one the [try] block returned. *)
Lemma purchasePlan_success (b : Build) (w : World) (planId email : string)
    (orderType : OrderType) (macAddress : option string) (isFreeTrial : bool)
    (r : PurchaseResult) :
  fst (purchasePlan b w planId email orderType macAddress isFreeTrial) = Normal r ->
  success r = true ->
  exists co,
    attempt b w planId email orderType macAddress (entry co)
    = (Normal r, snd (purchasePlan b w planId email orderType macAddress isFreeTrial)).
Proof.
  rewrite purchasePlan_unfold. unfold try_catch.
  intros Hrun Hok.
  exists (if logging b then [start_line planId email orderType isFreeTrial] else []).
  destruct (attempt _ _ _ _ _ _ _) as [[r'|e] st] eqn:Hbody.
  - cbn [fst snd] in *. congruence.
  - exfalso.
    destruct (recover_cases w e st) as [[_ H] | [(_ & _ & H) | (_ & e' & _ & H)]];
      rewrite H in Hrun; cbn [fst] in Hrun; try discriminate Hrun.
    all: injection Hrun as <-; discriminate Hok.
Qed.

(** A result with [success: false] is the one the [catch] block built. *)
Lemma purchasePlan_failure (b : Build) (w : World) (planId email : string)
    (orderType : OrderType) (macAddress : option string) (isFreeTrial : bool)
    (r : PurchaseResult) :
  fst (purchasePlan b w planId email orderType macAddress isFreeTrial) = Normal r ->
  success r = false ->
  exists e, r = failed e.
Proof.
  rewrite purchasePlan_unfold. unfold try_catch.
  intros Hrun Hko.
  pose proof (attempt_returns b w planId email orderType macAddress
                (entry (if logging b
                        then [start_line planId email orderType isFreeTrial]
                        else []))) as Hret.
  unfold wp in Hret.
  destruct (attempt _ _ _ _ _ _ _) as [[r'|e] st].
  - cbn [fst] in Hrun. injection Hrun as ->.
    destruct Hret as (u & p & -> & _). destruct orderType; discriminate Hko.
  - exists e.
    destruct (recover_cases w e st) as [[_ H] | [(_ & _ & H) | (_ & e' & _ & H)]];
      rewrite H in Hrun; cbn [fst] in Hrun; congruence.
Qed.

Lemma purchasePlan_success_shape (b : Build) (w : World) (planId email : string)
    (orderType : OrderType) (macAddress : option string) (isFreeTrial : bool)
    (r : PurchaseResult) :
  fst (purchasePlan b w planId email orderType macAddress isFreeTrial) = Normal r ->
  success r = true ->
  exists username password,
    r = assemble (env w) orderType macAddress username password /\
    match orderType with
    | STANDARD =>
        generateUsernameFromEmail (clock w) email = Normal username /\
        password = generatePassword (random w) None
    | MAG_DEVICE =>
        truthy macAddress = true /\
        username = or_else macAddress "" /\ password = ""
    end.
Proof.
  intros Hrun Hok.
  destruct (purchasePlan_success _ _ _ _ _ _ _ _ Hrun Hok) as [co Hbody].
  pose proof (attempt_returns b w planId email orderType macAddress (entry co)) as H.
  unfold wp in H. rewrite Hbody in H. exact H.
Qed.

(** What holds of the [catch] block.  When the [try] block throws [e],
    the [catch] block calls [browser.close()] exactly when a browser was
    launched, and makes no other call.  If that call completes, or none is
    made, [purchasePlan] returns username "", password "",
    [success = false] and, as [error], the message of [e] or "Unknown
    error occurred" when [e] is no [Error].  If that call throws, its
    exception reaches the caller.  A result the [try] block returns has
    [success = true] and no [error]. *)
Lemma purchasePlan_captures_failures (b : Build) (w : World)
    (planId email : string) (orderType : OrderType)
    (macAddress : option string) (isFreeTrial : bool) :
  let run := purchasePlan b w planId email orderType macAddress isFreeTrial in
  match attempt b w planId email orderType macAddress
          (entry (if logging b
                  then [start_line planId email orderType isFreeTrial] else []))
  with
  | (Normal r, st) =>
      run = (Normal r, st) /\ success r = true /\ error r = None
  | (Abrupt e, st) =>
      trace (snd run)
      = (trace st ++ (if browser st
                      then [(Close, respond w (trace st) Close)] else []))%list /\
      ((exists r, fst run = Normal r /\
          username r = "" /\ password r = "" /\ success r = false /\
          (forall message, e = JsError message -> error r = Some message) /\
          (e = JsThrown -> error r = Some "Unknown error occurred")) \/
       (exists e', browser st = true /\ respond w (trace st) Close = Some e' /\
          fst run = Abrupt e'))
  end.
Proof.
  cbv zeta. rewrite purchasePlan_unfold. unfold try_catch.
  pose proof (attempt_returns b w planId email orderType macAddress
                (entry (if logging b
                        then [start_line planId email orderType isFreeTrial]
                        else []))) as Hret.
  unfold wp in Hret.
  destruct (attempt _ _ _ _ _ _ _) as [[r|e] st].
  - destruct Hret as (u & p & -> & _).
    destruct orderType; repeat split; reflexivity.
  - assert (Hfailed : forall out : completion PurchaseResult * St,
              fst out = Normal (failed e) ->
              exists r, fst out = Normal r /\
                username r = "" /\ password r = "" /\ success r = false /\
                (forall message, e = JsError message -> error r = Some message) /\
                (e = JsThrown -> error r = Some "Unknown error occurred")).
    { intros out Hout. exists (failed e). repeat split; try assumption.
      - intros message ->. reflexivity.
      - intros ->. reflexivity. }
    destruct (recover_cases w e st)
      as [[Hb H] | [(Hb & Hc & H) | (Hb & e' & Hc & H)]];
      rewrite H, Hb.
    + split; [cbn [snd]; now rewrite app_nil_r|].
      left. apply Hfailed. reflexivity.
    + split; [cbn [snd trace]; now rewrite Hc|].
      left. apply Hfailed. reflexivity.
    + split; [cbn [snd trace]; now rewrite Hc|].
      right. exists e'. repeat split; assumption.
Qed.

(** C1 does not hold of the code: [purchasePlan] can raise to its caller.
    With a browser that cannot be closed, every step of the flow
    succeeds, the [browser.close()] at the end of the [try] block throws
    and is captured, and the [browser.close()] of the [catch] block, which
    nothing guards, throws again: both copies of [purchasePlan] reject
    with that exception and return no result.  The same failure of the
    first [browser.close()] alone is captured as the function means to:
    when the second call completes, the failure is returned as a result
    with [success = false] and the message as [error]. *)
Theorem release_failure_escapes :
  let busy := JsError "EBUSY: resource busy or locked" in
  let run := purchasePlan instrumented unclosable "BASIC" "jane.doe@example.com"
               STANDARD None false in
  let run' := purchasePlan instrumented closes_at_second_call "BASIC"
                "jane.doe@example.com" STANDARD None false in
  (fst run = Abrupt busy /\
   failures (trace (snd run)) = [busy; busy] /\
   last_calls 3 (trace (snd run))
   = [(WaitForTimeout 2000, None); (Close, Some busy); (Close, Some busy)]) /\
  fst (purchasePlan plain unclosable "BASIC" "jane.doe@example.com"
         STANDARD None false) = Abrupt busy /\
  (fst run' = Normal (failed busy) /\
   error (failed busy) = Some "EBUSY: resource busy or locked" /\
   last_calls 3 (trace (snd run'))
   = [(WaitForTimeout 2000, None); (Close, Some busy); (Close, None)]).
Proof. vm_compute. repeat split; reflexivity. Qed.

(** C2, amended. A result with [success = true] has exactly the field
    group of its order type: the four streaming fields and no MAG field
    for a standard order, the two MAG fields and no streaming field for a
    MAG order.  A result with [success = false] has neither group. *)
Theorem field_groups_by_order_type (b : Build) (w : World)
    (planId email : string) (orderType : OrderType)
    (macAddress : option string) (isFreeTrial : bool) (r : PurchaseResult) :
  fst (purchasePlan b w planId email orderType macAddress isFreeTrial) = Normal r ->
  (success r = true ->
   match orderType with
   | STANDARD => populated (standard_group r) /\ unpopulated (mag_group r)
   | MAG_DEVICE => populated (mag_group r) /\ unpopulated (standard_group r)
   end) /\
  (success r = false ->
   unpopulated (standard_group r) /\ unpopulated (mag_group r)).
Proof.
  intros Hrun. split.
  - intros Hok.
    destruct (purchasePlan_success_shape _ _ _ _ _ _ _ _ Hrun Hok)
      as (u & p & -> & Hcred).
    destruct orderType.
    + split; repeat constructor; discriminate.
    + destruct Hcred as (Hmac & _ & _).
      destruct macAddress as [m|]; [|discriminate Hmac].
      split; repeat constructor; discriminate.
  - intros Hko.
    destruct (purchasePlan_failure _ _ _ _ _ _ _ _ Hrun Hko) as [e ->].
    split; repeat constructor.
Qed.

Lemma field_groups_witness :
  exists r,
    fst (purchasePlan instrumented calm "BASIC" "jane.doe@example.com" STANDARD None false)
    = Normal r /\
    populated (standard_group r) /\ unpopulated (mag_group r).
Proof.
  eexists. split; [vm_compute; reflexivity|].
  refine (proj1 (field_groups_by_order_type instrumented calm
                   "BASIC" "jane.doe@example.com" STANDARD None false _ _) _);
    vm_compute; reflexivity.
Defined.

(** C2, as stated, fails: without [IPTV_PROVIDER_URL] the call returns a
    failure result, and that result has neither field group. *)
Lemma failed_result_has_no_group :
  exists r,
    fst (purchasePlan instrumented unconfigured "BASIC" "jane.doe@example.com"
           STANDARD None false) = Normal r /\
    unpopulated (standard_group r) /\ unpopulated (mag_group r).
Proof.
  eexists. split; [vm_compute; reflexivity|].
  split; repeat constructor.
Qed.

(** C5. In a successful result of a standard order, [m3uUrl] and [epgUrl]
    are the two templates filled with the [serverUrl], [username] and
    [password] of the same result, and [serverUrl] is the configured
    [IPTV_SERVER_URL], or "http://ky-tv.cc:8080" when none is set (an
    empty value counts as not set). *)
Theorem streaming_urls (b : Build) (w : World) (planId email : string)
    (macAddress : option string) (isFreeTrial : bool) (r : PurchaseResult) :
  fst (purchasePlan b w planId email STANDARD macAddress isFreeTrial) = Normal r ->
  success r = true ->
  exists server,
    serverUrl r = Some server /\
    m3uUrl r = Some (server ++ "/get.php?username=" ++ username r ++
                     "&password=" ++ password r ++ "&type=m3u_plus&output=ts") /\
    epgUrl r = Some (server ++ "/xmltv.php?username=" ++ username r ++
                     "&password=" ++ password r) /\
    (IPTV_SERVER_URL (env w) = None -> server = "http://ky-tv.cc:8080") /\
    (forall s, IPTV_SERVER_URL (env w) = Some s -> s <> "" -> server = s) /\
    (IPTV_SERVER_URL (env w) = Some "" -> server = "http://ky-tv.cc:8080").
Proof.
  intros Hrun Hok.
  destruct (purchasePlan_success_shape _ _ _ _ _ _ _ _ Hrun Hok)
    as (u & p & -> & _).
  exists (or_else (IPTV_SERVER_URL (env w)) "http://ky-tv.cc:8080").
  repeat split.
  - intros ->. reflexivity.
  - intros s -> Hs. unfold or_else.
    destruct (String.eqb_spec s ""); [contradiction | reflexivity].
  - intros ->. reflexivity.
Qed.

Lemma streaming_urls_witness :
  exists r,
    fst (purchasePlan instrumented calm "BASIC" "jane.doe@example.com" STANDARD None false)
    = Normal r /\
    m3uUrl r = Some "http://ky-tv.cc:8080/get.php?username=JANEDO2611020905&password=nnnnnnnn&type=m3u_plus&output=ts" /\
    epgUrl r = Some "http://ky-tv.cc:8080/xmltv.php?username=JANEDO2611020905&password=nnnnnnnn".
Proof.
  eexists. split; [vm_compute; reflexivity|].
  destruct (streaming_urls instrumented calm "BASIC" "jane.doe@example.com"
              None false _ eq_refl eq_refl)
    as (server & Hserver & Hm3u & Hepg & _).
  injection Hserver as <-. split; [exact Hm3u | exact Hepg].
Defined.

(** C6, amended. For a MAG order whose [macAddress] is absent (or empty),
    every result is a failure with username "" and password "", and its
    [error] is "macAddress is required for MAG_DEVICE orders" whenever the
    flow got as far as its order-type branch, that is, once the plan was
    selected on the form; a failure before that point reports its own
    message.  In a successful result of a MAG order, [username] is the MAC
    address and [password] is "". *)
Theorem mag_order_credentials (b : Build) (w : World) (planId email : string)
    (macAddress : option string) (isFreeTrial : bool) (r : PurchaseResult) :
  let run := purchasePlan b w planId email MAG_DEVICE macAddress isFreeTrial in
  fst run = Normal r ->
  (truthy macAddress = false ->
   success r = false /\ username r = "" /\ password r = "" /\
   (plan_selected (trace (snd run)) = true ->
    error r = Some "macAddress is required for MAG_DEVICE orders")) /\
  (success r = true ->
   exists mac, macAddress = Some mac /\ username r = mac /\ password r = "").
Proof.
  cbv zeta. intros Hrun. split.
  - intros Hmac. revert Hrun. rewrite purchasePlan_unfold. unfold try_catch.
    pose proof (attempt_without_mac b w planId email macAddress
                  (if logging b
                   then [start_line planId email MAG_DEVICE isFreeTrial] else [])
                  Hmac) as Hbody.
    unfold wp in Hbody.
    destruct (attempt _ _ _ _ _ _ _) as [[r'|e] st]; [contradiction|].
    destruct (recover_cases w e st) as [[_ H] | [(_ & _ & H) | (_ & e' & _ & H)]];
      rewrite H; cbn [fst snd trace]; intros Hrun; try discriminate Hrun;
      injection Hrun as <-; repeat split.
    + intros Hsel. rewrite (Hbody Hsel). reflexivity.
    + rewrite plan_selected_app, orb_false_r.
      intros Hsel. rewrite (Hbody Hsel). reflexivity.
  - intros Hok.
    destruct (purchasePlan_success_shape _ _ _ _ _ _ _ _ Hrun Hok)
      as (u & p & -> & Hmac & -> & ->).
    destruct macAddress as [mac|]; [|discriminate Hmac].
    exists mac. unfold truthy in Hmac. cbn [assemble username password or_else].
    destruct (mac =? ""); [discriminate Hmac | repeat split].
Qed.

Lemma mag_order_credentials_witness :
  exists r,
    fst (purchasePlan instrumented calm "BASIC" "jane.doe@example.com"
           MAG_DEVICE None false) = Normal r /\
    success r = false /\ username r = "" /\ password r = "" /\
    error r = Some "macAddress is required for MAG_DEVICE orders".
Proof.
  eexists. split; [vm_compute; reflexivity|].
  destruct (mag_order_credentials instrumented calm "BASIC" "jane.doe@example.com"
              None false _ eq_refl) as [Habsent _].
  destruct (Habsent eq_refl) as (H1 & H2 & H3 & H4).
  assert (Hsel : plan_selected
            (trace (snd (purchasePlan instrumented calm "BASIC"
                           "jane.doe@example.com" MAG_DEVICE None false))) = true)
    by (vm_compute; reflexivity).
  exact (conj H1 (conj H2 (conj H3 (H4 Hsel)))).
Defined.

(** C6, as stated, fails: a MAG order without [macAddress] placed while
    [IPTV_PROVIDER_URL] is not configured fails on the configuration, and
    reports that, before the MAC address is ever looked at. *)
Lemma mag_without_mac_reports_configuration :
  exists r,
    fst (purchasePlan instrumented unconfigured "BASIC" "jane.doe@example.com"
           MAG_DEVICE None false) = Normal r /\
    error r = Some "IPTV_PROVIDER_URL not set in environment variables" /\
    error r <> Some "macAddress is required for MAG_DEVICE orders".
Proof.
  eexists. split; [vm_compute; reflexivity|].
  split; [reflexivity | discriminate].
Qed.

(** What holds of the release.  When the launch fails, [browser.close()]
    is never called.  When a session is acquired, every run that returns
    has released it exactly once, whether it returns a success or a
    failure; no run releases it twice; and as long as no call of
    [browser.close()] itself throws, exactly one such call is made and the
    run returns. *)
Lemma session_released_once (b : Build) (w : World) (planId email : string)
    (orderType : OrderType) (macAddress : option string) (isFreeTrial : bool) :
  let run := purchasePlan b w planId email orderType macAddress isFreeTrial in
  let calls := trace (snd run) in
  (acquired calls = false -> close_calls calls = 0) /\
  (acquired calls = true -> forall r, fst run = Normal r -> releases calls = 1) /\
  (acquired calls = true -> (forall e, ~ In (Close, Some e) calls) ->
   close_calls calls = 1 /\ exists r, fst run = Normal r) /\
  releases calls <= 1.
Proof.
  cbv zeta. rewrite purchasePlan_unfold. unfold try_catch.
  pose proof (attempt_release b w planId email orderType macAddress
                (if logging b
                 then [start_line planId email orderType isFreeTrial] else []))
    as Hbody.
  unfold wp in Hbody.
  destruct (attempt _ _ _ _ _ _ _) as [[r|e] st].
  - cbn [fst snd]. destruct Hbody as (Hacq & Hcalls & Hrel).
    repeat split; try congruence; [eauto | lia].
  - destruct (recover_cases w e st)
      as [[Hbr H] | [(Hbr & _ & H) | (Hbr & e' & _ & H)]];
      rewrite H; cbn [fst snd trace];
      destruct Hbody
        as [(Hb & Hacq & Hcalls & Hrel) | (Hb & Hacq & Hrel & Hcalls)];
      try congruence.
    + repeat split; try congruence. lia.
    + rewrite acquired_app, close_calls_app, releases_app, Hacq, Hrel.
      split; [discriminate|]. split; [intros _ r' _; reflexivity|].
      split; [|cbn; lia].
      intros _ Hclean. split; [|eauto].
      destruct Hcalls as [-> | (_ & e' & Hin)]; [reflexivity|].
      exfalso. apply (Hclean e'), in_or_app. left. exact Hin.
    + rewrite acquired_app, releases_app, Hacq, Hrel.
      split; [discriminate|]. split; [intros _ r' Hr; discriminate Hr|].
      split; [|cbn; lia].
      intros _ Hclean. exfalso.
      apply (Hclean e'), in_or_app. right. left. reflexivity.
Qed.

(** C7 does not hold of the code: an acquired session is not released
    exactly once on every exit path.  With a browser that cannot be
    closed, a run that acquires the session and takes every step of the
    flow calls [browser.close()] twice, at the end of the [try] block and
    again, unguarded, in the [catch] block; neither call completes and the
    run rejects.  When the navigation fails first, the only call of
    [browser.close()] is the one of the [catch] block; it throws and the
    run rejects with the session still held.  When the first
    [browser.close()] throws and the second completes, the session is
    released once, at the second of two attempts. *)
Theorem session_left_open :
  let busy := JsError "EBUSY: resource busy or locked" in
  let run := purchasePlan instrumented unclosable "BASIC" "jane.doe@example.com"
               STANDARD None false in
  let cut := purchasePlan instrumented unreachable_unclosable "BASIC"
               "jane.doe@example.com" STANDARD None false in
  let run' := purchasePlan instrumented closes_at_second_call "BASIC"
                "jane.doe@example.com" STANDARD None false in
  (acquired (trace (snd run)) = true /\ close_calls (trace (snd run)) = 2 /\
   releases (trace (snd run)) = 0 /\ fst run = Abrupt busy) /\
  (acquired (trace (snd cut)) = true /\ close_calls (trace (snd cut)) = 1 /\
   releases (trace (snd cut)) = 0 /\ fst cut = Abrupt busy /\
   failures (trace (snd cut)) = [JsError "net::ERR_CONNECTION_REFUSED"; busy]) /\
  (acquired (trace (snd run')) = true /\ close_calls (trace (snd run')) = 2 /\
   releases (trace (snd run')) = 1 /\ fst run' = Normal (failed busy)).
Proof. vm_compute. repeat split; reflexivity. Qed.

(** The instrumented copy settles: a successful run ends with the click
    on the final submission control, the wait for the navigation until no
    request is in flight, the pause of 2000 ms and then the release; the
    result is assembled after that. *)
Lemma instrumented_copy_settles (w : World) (planId email : string)
    (orderType : OrderType) (macAddress : option string) (isFreeTrial : bool)
    (r : PurchaseResult) :
  let run := purchasePlan instrumented w planId email orderType macAddress isFreeTrial in
  fst run = Normal r ->
  success r = true ->
  last_calls 4 (trace (snd run)) =
    [ (Click "#submit_button", None);
      (WaitForNavigation networkidle0, None);
      (WaitForTimeout 2000, None);
      (Close, None) ].
Proof.
  cbv zeta. intros Hrun Hok.
  destruct (purchasePlan_success _ _ _ _ _ _ _ _ Hrun Hok) as [co Hbody].
  pose proof (instrumented_settles w planId email orderType macAddress co) as H.
  unfold wp in H. rewrite Hbody in H. exact H.
Qed.

Lemma plain_copy_never_settles (w : World) (planId email : string)
    (orderType : OrderType) (macAddress : option string) (isFreeTrial : bool)
    (r : PurchaseResult) :
  let run := purchasePlan plain w planId email orderType macAddress isFreeTrial in
  fst run = Normal r ->
  success r = true ->
  last_calls 3 (trace (snd run)) =
    [ (Click "#submit_button", None);
      (WaitForNavigation networkidle2, None);
      (Close, None) ] /\
  existsb is_timeout (trace (snd run)) = false.
Proof.
  cbv zeta. intros Hrun Hok.
  destruct (purchasePlan_success _ _ _ _ _ _ _ _ Hrun Hok) as [co Hbody].
  pose proof (plain_never_settles w planId email orderType macAddress co) as H.
  unfold wp in H. rewrite Hbody in H. exact H.
Qed.

(** C8 on the other copy of [purchase.ts]: a run in which every step
    succeeds waits for the navigation only until at most two requests are
    in flight ([networkidle2]) and releases the session right after it;
    no pause is made anywhere in the run. *)
Theorem plain_copy_does_not_settle :
  let run := purchasePlan plain calm "BASIC" "jane.doe@example.com" STANDARD None false in
  (exists r, fst run = Normal r /\ success r = true) /\
  last_calls 3 (trace (snd run)) =
    [ (Click "#submit_button", None);
      (WaitForNavigation networkidle2, None);
      (Close, None) ] /\
  existsb is_timeout (trace (snd run)) = false.
Proof.
  cbv zeta. split; [eexists; split; vm_compute; reflexivity|].
  split; vm_compute; reflexivity.
Qed.

(** C10. Two calls that differ only in [isFreeTrial] settle with the same
    completion, hence return the same result, after the same calls on the
    browser and the page; only the first console line differs. *)
Theorem isFreeTrial_is_inert (b : Build) (w : World) (planId email : string)
    (orderType : OrderType) (macAddress : option string) (flag1 flag2 : bool) :
  fst (purchasePlan b w planId email orderType macAddress flag1)
  = fst (purchasePlan b w planId email orderType macAddress flag2) /\
  trace (snd (purchasePlan b w planId email orderType macAddress flag1))
  = trace (snd (purchasePlan b w planId email orderType macAddress flag2)).
Proof.
  rewrite !purchasePlan_unfold.
  assert (Hblind : console_blind
            (try_catch (attempt b w planId email orderType macAddress) (recover w))).
  { apply blind_try_catch; [apply blind_attempt | apply blind_recover]. }
  match goal with
  | |- fst (_ ?st1) = fst (_ ?st2) /\ _ =>
      destruct (Hblind st1 st2) as [Hout [_ Hcalls]]
  end.
  - split; reflexivity.
  - split; assumption.
Qed.

(* ------------------------------------------------------------------ *)
(** ** Instances *)

Lemma sample_clock_is_wall_clock : wall_clock sample_clock.
Proof. unfold wall_clock, sample_clock. cbn. lia. Defined.

Lemma deriveUsername_shape_witness :
  first_at "jane.doe@example.com" "jane.doe" "example.com" /\
  Js.str_existsb Js.isAlnum "jane.doe" = true /\
  wall_clock sample_clock /\
  generateUsernameFromEmail sample_clock "jane.doe@example.com"
  = Normal "JANEDO2611020905".
Proof.
  assert (Hat : first_at "jane.doe@example.com" "jane.doe" "example.com")
    by (split; reflexivity).
  exact (conj Hat (conj eq_refl (conj sample_clock_is_wall_clock
           (proj1 (deriveUsername_shape sample_clock "jane.doe@example.com"
                     "jane.doe" "example.com" Hat eq_refl
                     sample_clock_is_wall_clock))))).
Defined.


Lemma sample_draws_in_unit_interval : unit_interval sample_draws.
Proof. intros k. unfold sample_draws. destruct (Nat.even k); repeat split. Defined.

Lemma generatePassword_shape_witness :
  String.length (generatePassword sample_draws (Some 12%Z)) = 12 /\
  Js.str_forallb Js.isLower (generatePassword sample_draws (Some 12%Z)) = true.
Proof.
  destruct (generatePassword_shape sample_draws 12
              sample_draws_in_unit_interval ltac:(lia)) as [[Hlen Hlow] _].
  split; [lia | exact Hlow].
Defined.

(* ================================================================== *)
(** * Further properties *)

(* ------------------------------------------------------------------ *)
(** ** Matching by derivatives *)

Module RegexFacts.
Import Regex.

Lemma app_nil_both (x y : string) : x ++ y = "" -> x = "" /\ y = "".
Proof. destruct x; cbn; [auto | discriminate]. Qed.

Lemma app_nil_r_str (x : string) : x ++ "" = x.
Proof. induction x as [|c x IH]; cbn; [reflexivity | now rewrite IH]. Qed.

Lemma void_inv (u : string) : ~ Lang Void u.
Proof. intros H. inversion H. Qed.

Lemma eps_inv (u : string) : Lang Eps u -> u = "".
Proof. intros H. inversion H. reflexivity. Qed.

Lemma class_inv (p : ascii -> bool) (u : string) :
  Lang (Class p) u -> exists c, u = String c "" /\ p c = true.
Proof. intros H. inversion H; subst. eauto. Qed.

Lemma cat_inv (r s : t) (u : string) :
  Lang (Cat r s) u -> exists x y, u = x ++ y /\ Lang r x /\ Lang s y.
Proof. intros H. inversion H; subst. eauto. Qed.

Lemma alt_inv (r s : t) (u : string) :
  Lang (Alt r s) u -> Lang r u \/ Lang s u.
Proof. intros H. inversion H; subst; auto. Qed.

Lemma cat_cons (r s : t) (c : ascii) (x y : string) :
  Lang r (String c x) -> Lang s y -> Lang (Cat r s) (String c (x ++ y)).
Proof. intros Hx Hy. exact (LCat r s (String c x) y Hx Hy). Qed.

Lemma nullable_spec (r : t) : nullable r = true <-> Lang r "".
Proof.
  induction r as [| | p | r IHr s IHs | r IHr s IHs | r IHr]; cbn.
  - split; [discriminate | intros H; destruct (void_inv _ H)].
  - split; [constructor | reflexivity].
  - split; [discriminate|].
    intros H. apply class_inv in H as (c & Hc & _). discriminate Hc.
  - rewrite andb_true_iff, IHr, IHs. split.
    + intros [Hr Hs]. exact (LCat r s "" "" Hr Hs).
    + intros H. apply cat_inv in H as (x & y & Heq & Hx & Hy).
      symmetry in Heq. apply app_nil_both in Heq as [-> ->]. now split.
  - rewrite orb_true_iff, IHr, IHs. split.
    + intros [H|H]; [now apply LAltL | now apply LAltR].
    + apply alt_inv.
  - split; [constructor | reflexivity].
Qed.

(** A non-empty word of [r*] starts with a non-empty word of [r]. *)
Lemma star_cons (r : t) (u : string) :
  Lang (Star r) u ->
  forall c s, u = String c s ->
  exists x y, s = x ++ y /\ Lang r (String c x) /\ Lang (Star r) y.
Proof.
  intros H. remember (Star r) as q eqn:Eq. revert r Eq.
  induction H as [| | | | | r0 | r0 x y Hx _ Hy IHy]; intros r' Eq; try discriminate Eq.
  - intros c s Hnil. discriminate Hnil.
  - injection Eq as ->. intros c s Heq. destruct x as [|d x].
    + cbn in Heq. exact (IHy r' eq_refl c s Heq).
    + cbn in Heq. injection Heq as -> <-. exists x, y. auto.
Qed.

Lemma deriv_spec (r : t) :
  forall c s, Lang (deriv c r) s <-> Lang r (String c s).
Proof.
  induction r as [| | p | r IHr q IHq | r IHr q IHq | r IHr]; intros c s; cbn.
  - split; intros H; destruct (void_inv _ H).
  - split; intros H; [destruct (void_inv _ H) | apply eps_inv in H; discriminate H].
  - split.
    + intros H. destruct (p c) eqn:Ep; [|destruct (void_inv _ H)].
      apply eps_inv in H as ->. now constructor.
    + intros H. apply class_inv in H as (d & Heq & Hd).
      injection Heq as -> ->. rewrite Hd. constructor.
  - assert (Hcat : Lang (Cat (deriv c r) q) s -> Lang (Cat r q) (String c s)).
    { intros H. apply cat_inv in H as (x & y & -> & Hx & Hy).
      apply cat_cons; [now apply IHr | exact Hy]. }
    assert (Hinv : Lang (Cat r q) (String c s) ->
                   Lang (Cat (deriv c r) q) s \/
                   (Lang r "" /\ Lang (deriv c q) s)).
    { intros H. apply cat_inv in H as (x & y & Heq & Hx & Hy).
      destruct x as [|d x]; cbn in Heq.
      - right. split; [exact Hx|]. apply IHq. now rewrite Heq.
      - injection Heq as -> ->. left. constructor; [now apply IHr | exact Hy]. }
    destruct (nullable r) eqn:En.
    + split.
      * intros H. apply alt_inv in H as [H|H]; [now apply Hcat|].
        apply (LCat r q "" (String c s)); [now apply nullable_spec | now apply IHq].
      * intros H. destruct (Hinv H) as [H1 | [_ H1]];
          [now apply LAltL | now apply LAltR].
    + split; [exact Hcat|].
      intros H. destruct (Hinv H) as [H1 | [H1 _]]; [exact H1|].
      apply nullable_spec in H1. congruence.
  - split.
    + intros H. apply alt_inv in H as [H|H];
        [apply LAltL; now apply IHr | apply LAltR; now apply IHq].
    + intros H. apply alt_inv in H as [H|H];
        [apply LAltL; now apply IHr | apply LAltR; now apply IHq].
  - split.
    + intros H. apply cat_inv in H as (x & y & -> & Hx & Hy).
      exact (LStarApp r (String c x) y (proj1 (IHr c x) Hx) Hy).
    + intros H. destruct (star_cons r _ H c s eq_refl) as (x & y & -> & Hx & Hy).
      constructor; [now apply IHr | exact Hy].
Qed.

Lemma test_spec (s : string) : forall r, test r s = true <-> Lang r s.
Proof.
  induction s as [|c s IH]; intros r; cbn.
  - apply nullable_spec.
  - rewrite IH. apply deriv_spec.
Qed.

Lemma star_class (p : ascii -> bool) (s : string) :
  Lang (Star (Class p)) s <-> Js.str_forallb p s = true.
Proof.
  split.
  - intros H. remember (Star (Class p)) as q eqn:Eq.
    induction H as [| | | | | r0 | r0 x y Hx _ _ IHy]; try discriminate Eq.
    + reflexivity.
    + injection Eq as ->. apply class_inv in Hx as (c & -> & Hc). cbn.
      rewrite Hc. exact (IHy eq_refl).
  - induction s as [|c s IH]; cbn; [constructor|].
    intros H. apply andb_true_iff in H as [Hc Hs].
    apply (LStarApp _ (String c "") s); [now constructor | now apply IH].
Qed.

Lemma plus_class (p : ascii -> bool) (s : string) :
  Lang (plus (Class p)) s <-> s <> "" /\ Js.str_forallb p s = true.
Proof.
  unfold plus. split.
  - intros H. apply cat_inv in H as (x & y & -> & Hx & Hy).
    apply class_inv in Hx as (c & -> & Hc). apply star_class in Hy. cbn.
    split; [discriminate | now rewrite Hc, Hy].
  - intros [Hne Hall]. destruct s as [|c s]; [congruence|].
    cbn in Hall. apply andb_true_iff in Hall as [Hc Hs].
    apply (LCat _ _ (String c "") s); [now constructor | now apply star_class].
Qed.

Lemma class_char (c : ascii) (s : string) :
  Lang (Class (Ascii.eqb c)) s <-> s = String c "".
Proof.
  split.
  - intros H. apply class_inv in H as (d & -> & Hd).
    apply Ascii.eqb_eq in Hd. now subst.
  - intros ->. constructor. apply Ascii.eqb_refl.
Qed.

End RegexFacts.

(* ------------------------------------------------------------------ *)
(** ** [isValidEmail] *)

Lemma valid_email_parts (email : string) :
  isValidEmail email = true ->
  exists loc dom tld,
    email = loc ++ String "@" (dom ++ String "." tld) /\
    address_part loc /\ address_part dom /\ address_part tld.
Proof.
  unfold isValidEmail, emailRegex, address_part.
  rewrite RegexFacts.test_spec. intros H.
  apply RegexFacts.cat_inv in H as (loc & r1 & -> & Hloc & H).
  apply RegexFacts.cat_inv in H as (at_ & r2 & -> & Hat & H).
  apply RegexFacts.cat_inv in H as (dom & r3 & -> & Hdom & H).
  apply RegexFacts.cat_inv in H as (dot & tld & -> & Hdot & Htld).
  apply RegexFacts.class_char in Hat, Hdot. subst.
  apply RegexFacts.plus_class in Hloc, Hdom, Htld.
  exists loc, dom, tld. cbn. auto.
Qed.

(** [isValidEmail] accepts exactly the strings made of a non-empty part,
    an "@", a non-empty part, a "." and a non-empty part, where no part
    holds white space or an "@". *)
Theorem isValidEmail_shape (email : string) :
  isValidEmail email = true <->
  exists loc dom tld,
    email = loc ++ String "@" (dom ++ String "." tld) /\
    address_part loc /\ address_part dom /\ address_part tld.
Proof.
  split; [apply valid_email_parts|].
  unfold isValidEmail, emailRegex, address_part.
  rewrite RegexFacts.test_spec.
  intros (loc & dom & tld & -> & Hloc & Hdom & Htld).
  apply RegexFacts.plus_class in Hloc, Hdom, Htld.
  constructor; [exact Hloc|].
  apply (Regex.LCat _ _ (String "@" "") (dom ++ String "." tld));
    [now apply RegexFacts.class_char|].
  constructor; [exact Hdom|].
  apply (Regex.LCat _ _ (String "." "") tld);
    [now apply RegexFacts.class_char | exact Htld].
Qed.

Example isValidEmail_samples :
  isValidEmail "a@b.com" = true /\
  isValidEmail "no-at-sign" = false /\
  isValidEmail "a@b" = false /\
  isValidEmail "a b@c.d" = false /\
  isValidEmail "a@b@c.d" = false.
Proof. repeat split; vm_compute; reflexivity. Qed.

(* ------------------------------------------------------------------ *)
(** ** Validation and username derivation together *)

Lemma address_part_no_at (s : string) :
  Js.str_forallb isAddressChar s = true -> has_at s = false.
Proof.
  unfold has_at. induction s as [|c s IH]; cbn [Js.str_forallb Js.str_existsb];
    [reflexivity|].
  intros H. apply andb_true_iff in H as [Hc Hs].
  rewrite (IH Hs), orb_false_r.
  unfold isAddressChar in Hc. apply negb_true_iff, orb_false_iff in Hc as [_ Hc].
  now rewrite Ascii.eqb_sym.
Qed.

(** An email that [isValidEmail] accepts never makes
    [generateUsernameFromEmail] throw "Invalid email address"; it still
    throws "Email prefix is invalid after cleaning" when no letter or
    digit stands before the "@", and returns the username otherwise. *)
Theorem valid_email_username (now : Date) (email : string) :
  isValidEmail email = true ->
  exists loc rest,
    first_at email loc rest /\ loc <> "" /\
    generateUsernameFromEmail now email =
      if Js.str_existsb Js.isAlnum loc
      then Normal (derived_prefix loc ++ timestamp now)
      else Abrupt (JsError "Email prefix is invalid after cleaning").
Proof.
  intros H. apply valid_email_parts in H
    as (loc & dom & tld & -> & [Hne Hloc] & _ & _).
  exists loc, (dom ++ String "." tld).
  assert (Hat : first_at (loc ++ String "@" (dom ++ String "." tld)) loc
                  (dom ++ String "." tld))
    by (split; [reflexivity | now apply address_part_no_at]).
  repeat split; [apply Hat | exact Hne |].
  exact (username_at now _ loc (dom ++ String "." tld) Hat).
Qed.

Lemma valid_email_username_witness :
  isValidEmail "._-@b.c" = true /\
  exists loc rest,
    first_at "._-@b.c" loc rest /\ loc <> "" /\
    generateUsernameFromEmail sample_clock "._-@b.c" =
      if Js.str_existsb Js.isAlnum loc
      then Normal (derived_prefix loc ++ timestamp sample_clock)
      else Abrupt (JsError "Email prefix is invalid after cleaning").
Proof.
  assert (Hvalid : isValidEmail "._-@b.c" = true) by (vm_compute; reflexivity).
  exact (conj Hvalid (valid_email_username sample_clock "._-@b.c" Hvalid)).
Defined.

Lemma derived_prefix_empty (pre : string) :
  Js.str_existsb Js.isAlnum pre = false -> derived_prefix pre = "".
Proof.
  intros H. apply filter_empty in H. unfold derived_prefix, Js.strip_non_alnum.
  rewrite H. reflexivity.
Qed.

(** The username depends on the email only through the first six letters
    and digits before its first "@", upper-cased: two emails that agree
    there get the same username from the same clock, or are rejected
    alike. *)
Theorem username_collision (now : Date) (email1 pre1 post1 email2 pre2 post2 : string) :
  first_at email1 pre1 post1 ->
  first_at email2 pre2 post2 ->
  derived_prefix pre1 = derived_prefix pre2 ->
  generateUsernameFromEmail now email1 = generateUsernameFromEmail now email2.
Proof.
  intros H1 H2 Heq.
  rewrite (username_at now email1 pre1 post1 H1), (username_at now email2 pre2 post2 H2).
  destruct (Js.str_existsb Js.isAlnum pre1) eqn:E1,
           (Js.str_existsb Js.isAlnum pre2) eqn:E2.
  - now rewrite Heq.
  - exfalso. destruct (derived_prefix_shape pre1 E1) as [[Hlen _] _].
    rewrite Heq, (derived_prefix_empty pre2 E2) in Hlen. cbn in Hlen. lia.
  - exfalso. destruct (derived_prefix_shape pre2 E2) as [[Hlen _] _].
    rewrite <- Heq, (derived_prefix_empty pre1 E1) in Hlen. cbn in Hlen. lia.
  - reflexivity.
Qed.

Lemma username_collision_witness :
  generateUsernameFromEmail sample_clock "john.smith1@a.com"
  = generateUsernameFromEmail sample_clock "JohnSmith2@b.org".
Proof.
  apply (username_collision sample_clock
           "john.smith1@a.com" "john.smith1" "a.com"
           "JohnSmith2@b.org" "JohnSmith2" "b.org");
    [split; reflexivity | split; reflexivity | vm_compute; reflexivity].
Defined.

(* ------------------------------------------------------------------ *)
(** ** The draws of [generatePassword] *)

Lemma fold_left_agree {A B} (f g : A -> B -> A) (l : list B) :
  (forall a x, In x l -> f a x = g a x) ->
  forall a, fold_left f l a = fold_left g l a.
Proof.
  induction l as [|x l IH]; intros H a; cbn; [reflexivity|].
  rewrite (H a x) by (left; reflexivity).
  apply IH. intros a' y Hy. apply H. now right.
Qed.

(** [generatePassword(n)] is empty for [n <= 0], and it consumes the
    first [n] draws only: two random sources that agree on them give the
    same password. *)
Theorem generatePassword_draws (random random' : nat -> number) (n : Z) :
  ((n <= 0)%Z -> generatePassword random (Some n) = "") /\
  ((forall k, (Z.of_nat k < n)%Z -> same_number (random k) (random' k)) ->
   generatePassword random (Some n) = generatePassword random' (Some n)).
Proof.
  unfold generatePassword. split.
  - intros Hn. replace (Z.to_nat n) with 0 by lia. reflexivity.
  - intros Hagree. apply fold_left_agree.
    intros password k Hk. apply in_seq in Hk.
    rewrite (randomIndex_same (random k) (random' k)); [reflexivity|].
    apply Hagree. lia.
Qed.

(* ------------------------------------------------------------------ *)
(** ** From the [try] block to the whole run *)

(** A property of the calls that holds however the [try] block ends, and
    that one more call of [browser.close()] preserves, holds of the run. *)
Lemma run_calls_ind (b : Build) (w : World) (planId email : string)
    (orderType : OrderType) (macAddress : option string) (isFreeTrial : bool)
    (P : list Event -> Prop) :
  (forall co,
     wp (attempt b w planId email orderType macAddress)
        (fun _ st => P (trace st)) (fun _ st => P (trace st)) (entry co)) ->
  (forall tr out, P tr -> P (tr ++ [(Close, out)])%list) ->
  P (trace (snd (purchasePlan b w planId email orderType macAddress isFreeTrial))).
Proof.
  intros Hbody Hclose. rewrite purchasePlan_unfold. unfold try_catch.
  specialize (Hbody (if logging b
                     then [start_line planId email orderType isFreeTrial] else [])).
  unfold wp in Hbody.
  destruct (attempt _ _ _ _ _ _ _) as [[r|e] st]; [exact Hbody|].
  destruct (recover_cases w e st) as [[_ H] | [(_ & _ & H) | (_ & e' & _ & H)]];
    rewrite H; cbn [snd trace]; auto.
Qed.

(** How a returned result relates to the end of the [try] block. *)
Lemma run_result_cases (b : Build) (w : World) (planId email : string)
    (orderType : OrderType) (macAddress : option string) (isFreeTrial : bool)
    (r : PurchaseResult) :
  let run := purchasePlan b w planId email orderType macAddress isFreeTrial in
  fst run = Normal r ->
  exists co st,
    (attempt b w planId email orderType macAddress (entry co) = (Normal r, st) /\
     success r = true /\ trace (snd run) = trace st) \/
    (exists e,
       attempt b w planId email orderType macAddress (entry co) = (Abrupt e, st) /\
       r = failed e /\
       (trace (snd run) = trace st \/
        trace (snd run) = (trace st ++ [(Close, None)])%list)).
Proof.
  cbv zeta. rewrite purchasePlan_unfold. unfold try_catch. intros Hrun.
  exists (if logging b then [start_line planId email orderType isFreeTrial] else []).
  pose proof (attempt_returns b w planId email orderType macAddress
                (entry (if logging b
                        then [start_line planId email orderType isFreeTrial]
                        else []))) as Hret.
  unfold wp in Hret.
  destruct (attempt _ _ _ _ _ _ _) as [[r'|e] st]; exists st.
  - left. cbn [fst snd] in *. injection Hrun as ->.
    destruct Hret as (u & p & -> & _).
    repeat split. destruct orderType; reflexivity.
  - right. exists e.
    destruct (recover_cases w e st) as [[_ H] | [(_ & _ & H) | (_ & e' & _ & H)]];
      rewrite H in Hrun |- *; cbn [fst snd trace] in *;
      try discriminate Hrun; injection Hrun as <-; auto.
Qed.

Lemma calls_of_app (p : Op -> bool) (tr1 tr2 : list Event) :
  calls_of p (tr1 ++ tr2) = calls_of p tr1 + calls_of p tr2.
Proof. unfold calls_of. now rewrite filter_app, List.length_app. Qed.

Lemma failures_app (tr1 tr2 : list Event) :
  failures (tr1 ++ tr2) = (failures tr1 ++ failures tr2)%list.
Proof.
  induction tr1 as [|[op [e|]] tr1 IH]; cbn; [reflexivity | now rewrite IH | exact IH].
Qed.

Lemma quiet_after_close_snoc (tr : list Event) (out : option exn) :
  quiet_after_close tr = true -> quiet_after_close (tr ++ [(Close, out)]) = true.
Proof.
  induction tr as [|ev tr IH]; cbn [app quiet_after_close]; [reflexivity|].
  destruct (is_close ev); [|exact IH].
  intros H. rewrite forallb_app, H. reflexivity.
Qed.

Lemma truthy_some (o : option string) :
  truthy o = true -> exists s, o = Some s /\ s <> "" /\ or_else o "" = s.
Proof.
  destruct o as [s|]; cbn; [|discriminate].
  destruct (String.eqb_spec s ""); [discriminate|]. eauto.
Qed.

(* ------------------------------------------------------------------ *)
(** ** What a run never does *)

(** Once [browser.close()] has been called, the run makes no call other
    than [browser.close()]: the page is never used after the release. *)
Theorem no_call_after_close (b : Build) (w : World) (planId email : string)
    (orderType : OrderType) (macAddress : option string) (isFreeTrial : bool) :
  quiet_after_close
    (trace (snd (purchasePlan b w planId email orderType macAddress isFreeTrial)))
  = true.
Proof.
  apply run_calls_ind with (P := fun tr => quiet_after_close tr = true).
  - intros co. unfold entry. wp_run; reflexivity.
  - intros tr out. apply quiet_after_close_snoc.
Qed.

(** A run makes a single attempt: it launches at most one browser,
    navigates at most once, submits the login form at most once, selects
    the plan at most once and clicks the final submission control at most
    once; [browser.close()] is called at most twice, once in the [try]
    block and once in the [catch] block. *)
Theorem single_attempt (b : Build) (w : World) (planId email : string)
    (orderType : OrderType) (macAddress : option string) (isFreeTrial : bool) :
  let calls :=
    trace (snd (purchasePlan b w planId email orderType macAddress isFreeTrial)) in
  calls_of is_launch calls <= 1 /\
  calls_of is_goto calls <= 1 /\
  calls_of is_login_submit calls <= 1 /\
  calls_of is_select calls <= 1 /\
  calls_of is_submit calls <= 1 /\
  close_calls calls <= 2.
Proof.
  cbv zeta.
  assert (Hcount : forall p, p Close = false ->
            (forall co,
               wp (attempt b w planId email orderType macAddress)
                  (fun _ st => (calls_of p (trace st) <=? 1)%nat = true)
                  (fun _ st => (calls_of p (trace st) <=? 1)%nat = true) (entry co)) ->
            calls_of p
              (trace (snd (purchasePlan b w planId email orderType macAddress
                             isFreeTrial))) <= 1).
  { intros p Hp Hbody. apply Nat.leb_le.
    apply run_calls_ind with (P := fun tr => (calls_of p tr <=? 1)%nat = true);
      [exact Hbody|].
    intros tr out H. rewrite calls_of_app. unfold calls_of at 2.
    cbn [filter fst]. rewrite Hp. cbn [List.length]. now rewrite Nat.add_0_r. }
  repeat split.
  - apply Hcount; [reflexivity|]. intros co. unfold entry. wp_run; reflexivity.
  - apply Hcount; [reflexivity|]. intros co. unfold entry. wp_run; reflexivity.
  - apply Hcount; [reflexivity|]. intros co. unfold entry. wp_run; reflexivity.
  - apply Hcount; [reflexivity|]. intros co. unfold entry. wp_run; reflexivity.
  - apply Hcount; [reflexivity|]. intros co. unfold entry. wp_run; reflexivity.
  - rewrite purchasePlan_unfold. unfold try_catch.
    assert (Hbody : wp (attempt b w planId email orderType macAddress)
              (fun _ st => (close_calls (trace st) <=? 1)%nat = true)
              (fun _ st => (close_calls (trace st) <=? 1)%nat = true)
              (entry (if logging b
                      then [start_line planId email orderType isFreeTrial]
                      else [])))
      by (unfold entry; wp_run; reflexivity).
    unfold wp in Hbody.
    destruct (attempt _ _ _ _ _ _ _) as [[r|e] st];
      [cbn [snd]; apply Nat.leb_le in Hbody; lia|].
    apply Nat.leb_le in Hbody.
    destruct (recover_cases w e st) as [[_ H] | [(_ & _ & H) | (_ & e' & _ & H)]];
      rewrite H; cbn [snd trace]; try rewrite close_calls_app;
      try (change (close_calls [(Close, None)]) with 1);
      try (change (close_calls [(Close, Some e')]) with 1); lia.
Qed.

(* ------------------------------------------------------------------ *)
(** ** Where a run goes and what it leaves alone *)

(** Every navigation of a run goes to the configured, non-empty
    [IPTV_PROVIDER_URL] followed by "/mag" for a MAG order and "/line"
    for a standard one, waiting as the build says. *)
Theorem navigation_target (b : Build) (w : World) (planId email : string)
    (orderType : OrderType) (macAddress : option string) (isFreeTrial : bool) :
  Forall
    (fun ev => forall url waitUntil, fst ev = Goto url waitUntil ->
       exists base,
         IPTV_PROVIDER_URL (env w) = Some base /\ base <> "" /\
         url = base ++ match orderType with
                       | MAG_DEVICE => "/mag"
                       | STANDARD => "/line"
                       end /\
         waitUntil = idle b)
    (trace (snd (purchasePlan b w planId email orderType macAddress isFreeTrial))).
Proof.
  apply run_calls_ind.
  - intros co. unfold entry, attempt.
    destruct (truthy (IPTV_PROVIDER_URL (env w))) eqn:Hbase.
    + destruct (truthy_some _ Hbase) as (base & Hsome & Hne & ->).
      repeat wp_step;
        repeat (apply Forall_cons; [cbn [fst]; intros url wu Heq |]);
        try apply Forall_nil; try discriminate Heq;
        injection Heq as <- <-; exists base; auto.
    + repeat wp_step;
        repeat (apply Forall_cons; [cbn [fst]; intros url wu Heq |]);
        try apply Forall_nil; discriminate Heq.
  - intros tr out H. apply Forall_app. split; [exact H|].
    apply Forall_cons; [|apply Forall_nil].
    cbn [fst]. intros url wu Heq. discriminate Heq.
Qed.

(** Without [IPTV_PROVIDER_URL] (unset or empty) a run never touches the
    provider's page, and it never succeeds; when no call failed, the
    error it returns says that the variable is not set. *)
Theorem unconfigured_never_navigates (b : Build) (w : World)
    (planId email : string) (orderType : OrderType)
    (macAddress : option string) (isFreeTrial : bool) :
  let run := purchasePlan b w planId email orderType macAddress isFreeTrial in
  truthy (IPTV_PROVIDER_URL (env w)) = false ->
  calls_of touches_page (trace (snd run)) = 0 /\
  (forall r, fst run = Normal r ->
     success r = false /\
     (failures (trace (snd run)) = [] ->
      error r = Some "IPTV_PROVIDER_URL not set in environment variables")).
Proof.
  cbv zeta. intros Hbase.
  assert (Hbody : forall co,
            wp (attempt b w planId email orderType macAddress)
               (fun _ _ => False)
               (fun e st =>
                  calls_of touches_page (trace st) = 0 /\
                  (failures (trace st) = [] ->
                   e = JsError "IPTV_PROVIDER_URL not set in environment variables"))
               (entry co)).
  { intros co. unfold entry, attempt. rewrite Hbase.
    repeat wp_step; (split; [reflexivity|]); intros H;
      first [discriminate H | reflexivity]. }
  split.
  - apply run_calls_ind with (P := fun tr => calls_of touches_page tr = 0).
    + intros co. specialize (Hbody co). unfold wp in *.
      destruct (attempt _ _ _ _ _ _ _) as [[r|e] st]; [contradiction | apply Hbody].
    + intros tr out H. rewrite calls_of_app, H. reflexivity.
  - intros r Hrun.
    destruct (run_result_cases _ _ _ _ _ _ _ _ Hrun)
      as (co & st & [(Hrun' & _) | (e & Hrun' & -> & Htr)]);
      specialize (Hbody co); unfold wp in Hbody; rewrite Hrun' in Hbody;
      [contradiction|].
    split; [reflexivity|]. intros Hnone. destruct Hbody as [_ Hmsg].
    rewrite Hmsg; [reflexivity|].
    destruct Htr as [Htr|Htr]; rewrite Htr in Hnone; [exact Hnone|].
    rewrite failures_app in Hnone. now apply app_eq_nil in Hnone.
Qed.

Lemma unconfigured_never_navigates_witness :
  exists r,
    fst (purchasePlan plain unconfigured "BASIC" "jane.doe@example.com"
           STANDARD None false) = Normal r /\
    error r = Some "IPTV_PROVIDER_URL not set in environment variables".
Proof.
  eexists. split; [vm_compute; reflexivity|].
  destruct (unconfigured_never_navigates plain unconfigured "BASIC"
              "jane.doe@example.com" STANDARD None false eq_refl) as [_ H].
  destruct (H _ eq_refl) as [_ Hmsg].
  apply Hmsg. vm_compute. reflexivity.
Defined.

(** Login is conditional.  On a page whose address never contains
    "login" the login form is never submitted; and when the page asks for
    a login while the provider credentials are not both configured, the
    run never types, selects or clicks anything. *)
Theorem login_is_conditional (b : Build) (w : World) (planId email : string)
    (orderType : OrderType) (macAddress : option string) (isFreeTrial : bool) :
  let calls :=
    trace (snd (purchasePlan b w planId email orderType macAddress isFreeTrial)) in
  ((forall tr, Js.includes "login" (location w tr) = false) ->
   calls_of is_login_submit calls = 0) /\
  ((forall tr, Js.includes "login" (location w tr) = true) ->
   truthy (IPTV_PROVIDER_USERNAME (env w)) &&
   truthy (IPTV_PROVIDER_PASSWORD (env w)) = false ->
   calls_of operates_form calls = 0).
Proof.
  cbv zeta. split.
  - intros Hpage.
    apply run_calls_ind with (P := fun tr => calls_of is_login_submit tr = 0).
    + intros co. unfold entry. wp_run;
        try reflexivity;
        match goal with
        | Hx : Js.includes "login" _ = true |- _ =>
            rewrite Hpage in Hx; discriminate Hx
        end.
    + intros tr out H. rewrite calls_of_app, H. reflexivity.
  - intros Hpage Hcred.
    apply run_calls_ind with (P := fun tr => calls_of operates_form tr = 0).
    + intros co. unfold entry, attempt. rewrite Hcred.
      repeat wp_step;
        try reflexivity;
        match goal with
        | Hx : Js.includes "login" _ = false |- _ =>
            rewrite Hpage in Hx; discriminate Hx
        end.
    + intros tr out H. rewrite calls_of_app, H. reflexivity.
Qed.

Lemma login_is_conditional_witness :
  calls_of is_login_submit
    (trace (snd (purchasePlan instrumented calm "BASIC" "jane.doe@example.com"
                   STANDARD None false))) = 0 /\
  calls_of operates_form
    (trace (snd (purchasePlan instrumented login_wall "BASIC" "jane.doe@example.com"
                   STANDARD None false))) = 0.
Proof.
  split.
  - exact (proj1 (login_is_conditional instrumented calm "BASIC"
                    "jane.doe@example.com" STANDARD None false)
                 (fun _ => eq_refl)).
  - exact (proj2 (login_is_conditional instrumented login_wall "BASIC"
                    "jane.doe@example.com" STANDARD None false)
                 (fun _ => eq_refl) eq_refl).
Defined.

(* ------------------------------------------------------------------ *)
(** ** What a successful run has done *)

Lemma attempt_submits (b : Build) (w : World) (planId email : string)
    (orderType : OrderType) (macAddress : option string) (co : list string) :
  wp (attempt b w planId email orderType macAddress)
     (fun r st =>
        failures (trace st) = [] /\
        In (Select "#package" planId, None) (trace st) /\
        In (Click "#submit_button", None) (trace st) /\
        match orderType with
        | STANDARD =>
            In (TypeText "#username" (username r), None) (trace st) /\
            In (TypeText "#password" (password r), None) (trace st)
        | MAG_DEVICE =>
            In (TypeText "#mac" (username r), None) (trace st)
        end)
     (fun _ _ => True)
     (entry co).
Proof.
  unfold entry. wp_run; try exact I;
    cbn [assemble username password];
    repeat split; try reflexivity; in_trace.
Qed.

(** A result with [success = true] is returned only after every call of
    the run completed, among them the selection of the requested plan and
    the click on the final submission control; and the credentials it
    carries are the ones that were typed into the form: username and
    password for a standard order, the MAC address for a MAG order. *)
Theorem success_means_submitted (b : Build) (w : World) (planId email : string)
    (orderType : OrderType) (macAddress : option string) (isFreeTrial : bool)
    (r : PurchaseResult) :
  let run := purchasePlan b w planId email orderType macAddress isFreeTrial in
  fst run = Normal r ->
  success r = true ->
  failures (trace (snd run)) = [] /\
  In (Select "#package" planId, None) (trace (snd run)) /\
  In (Click "#submit_button", None) (trace (snd run)) /\
  match orderType with
  | STANDARD =>
      In (TypeText "#username" (username r), None) (trace (snd run)) /\
      In (TypeText "#password" (password r), None) (trace (snd run))
  | MAG_DEVICE =>
      In (TypeText "#mac" (username r), None) (trace (snd run))
  end.
Proof.
  cbv zeta. intros Hrun Hok.
  destruct (purchasePlan_success _ _ _ _ _ _ _ _ Hrun Hok) as [co Hbody].
  pose proof (attempt_submits b w planId email orderType macAddress co) as H.
  unfold wp in H. rewrite Hbody in H. exact H.
Qed.

Lemma success_means_submitted_witness :
  In (TypeText "#username" "JANEDO2611020905", None)
     (trace (snd (purchasePlan instrumented calm "BASIC" "jane.doe@example.com"
                    STANDARD None false))) /\
  In (TypeText "#password" "nnnnnnnn", None)
     (trace (snd (purchasePlan instrumented calm "BASIC" "jane.doe@example.com"
                    STANDARD None false))).
Proof.
  exact (proj2 (proj2 (proj2
           (success_means_submitted instrumented calm "BASIC" "jane.doe@example.com"
              STANDARD None false
              (assemble sample_env STANDARD None "JANEDO2611020905" "nnnnnnnn")
              eq_refl eq_refl)))).
Defined.



(** The configured extras of a successful result: a MAG order echoes the
    MAC address it was given and carries [MAG_PORTAL_URL]; a standard
    order carries [IPTV_BACKUP_SERVERS]; either is the empty string when
    the variable is not set. *)
Theorem configured_extras (b : Build) (w : World) (planId email : string)
    (orderType : OrderType) (given : option string) (isFreeTrial : bool)
    (r : PurchaseResult) :
  fst (purchasePlan b w planId email orderType given isFreeTrial) = Normal r ->
  success r = true ->
  match orderType with
  | MAG_DEVICE =>
      (exists mac, given = Some mac /\ mac <> "" /\ macAddress r = Some mac) /\
      portalURL r = Some (match MAG_PORTAL_URL (env w) with
                          | Some url => url
                          | None => ""
                          end)
  | STANDARD =>
      backupServers r = Some (match IPTV_BACKUP_SERVERS (env w) with
                              | Some servers => servers
                              | None => ""
                              end)
  end.
Proof.
  intros Hrun Hok.
  assert (Hor : forall o, or_else o "" = match o with Some s => s | None => "" end).
  { intros [s|]; [|reflexivity]. unfold or_else.
    destruct (String.eqb_spec s ""); [now subst | reflexivity]. }
  destruct (purchasePlan_success_shape _ _ _ _ _ _ _ _ Hrun Hok)
    as (u & p & -> & Hcred).
  destruct orderType; cbn [assemble backupServers portalURL macAddress].
  - now rewrite Hor.
  - destruct Hcred as (Hmac & _ & _).
    destruct (truthy_some _ Hmac) as (mac & -> & Hne & _).
    rewrite Hor. split; [eauto | reflexivity].
Qed.

Lemma configured_extras_witness :
  exists r,
    fst (purchasePlan plain calm "BASIC" "jane.doe@example.com" MAG_DEVICE
           (Some "00:1A:2B:3C:4D:5E") false) = Normal r /\
    macAddress r = Some "00:1A:2B:3C:4D:5E" /\
    portalURL r = Some "http://portal.example/c".
Proof.
  eexists. split; [vm_compute; reflexivity|].
  destruct (configured_extras plain calm "BASIC" "jane.doe@example.com" MAG_DEVICE
              (Some "00:1A:2B:3C:4D:5E") false _ eq_refl eq_refl)
    as [(mac & Hgiven & _ & Hmac) Hportal].
  injection Hgiven as <-. split; [exact Hmac | exact Hportal].
Defined.

(* ------------------------------------------------------------------ *)
(** ** What a failure reports *)

Lemma username_abrupt (now : Date) (email : string) (e : exn) :
  generateUsernameFromEmail now email = Abrupt e -> InvalidInput e.
Proof.
  destruct (has_at email) eqn:Hat.
  - destruct (has_at_first email Hat) as (pre & post & Hfirst).
    rewrite (username_at _ _ _ _ Hfirst).
    destruct (Js.str_existsb Js.isAlnum pre); [discriminate|].
    intros H. injection H as <-. right. reflexivity.
  - rewrite (username_no_at _ _ Hat).
    intros H. injection H as <-. left. reflexivity.
Qed.

Lemma attempt_failure (b : Build) (w : World) (planId email : string)
    (orderType : OrderType) (macAddress : option string) (co : list string) :
  wp (attempt b w planId email orderType macAddress)
     (fun _ st => failures (trace st) = [])
     (fun e st =>
        (failures (trace st) = [e] /\
         (submitted (trace st) = true ->
          forallb follows_submission (failed_ops (trace st)) = true)) \/
        (failures (trace st) = [] /\ submitted (trace st) = false /\ own_error e))
     (entry co).
Proof.
  unfold entry. wp_run;
    first
      [ reflexivity
      | left; split; [reflexivity|]; intros Hs;
        first [reflexivity | discriminate Hs]
      | right; split; [reflexivity|]; split; [reflexivity|];
        first [ left; reflexivity
              | right; left; reflexivity
              | right; right; left; reflexivity
              | right; right; right; eapply username_abrupt; eassumption ] ].
Qed.

Lemma failures_single (tr : list Event) (e : exn) :
  failures tr = [e] -> exists op, In (op, Some e) tr /\ failed_ops tr = [op].
Proof.
  induction tr as [|[op [e'|]] tr IH]; cbn [failures failed_ops].
  - discriminate.
  - intros H. injection H as -> Hrest. exists op. split; [left; reflexivity|].
    f_equal. clear IH. induction tr as [|[op' [e''|]] tr IH]; cbn in *;
      [reflexivity | discriminate Hrest | exact (IH Hrest)].
  - intros H. destruct (IH H) as (op' & Hin & Hops).
    exists op'. split; [right; exact Hin | exact Hops].
Qed.

Lemma closed_quietly (tr : list Event) :
  failures (tr ++ [(Close, None)]) = failures tr /\
  failed_ops (tr ++ [(Close, None)]) = failed_ops tr /\
  submitted (tr ++ [(Close, None)]) = submitted tr.
Proof.
  repeat split.
  - rewrite failures_app. cbn. apply app_nil_r.
  - induction tr as [|[op [e|]] tr IH]; cbn; [reflexivity | now rewrite IH | exact IH].
  - unfold submitted. rewrite existsb_app. cbn. now rewrite !orb_false_r.
Qed.

(** A failure result reports the message of the one call that threw; or,
    when every call completed, one of the errors [purchasePlan] raises by
    itself (missing provider address, missing provider credentials,
    missing MAC address, unusable email), and then the final submission
    control was not clicked. *)
Theorem failure_attribution (b : Build) (w : World) (planId email : string)
    (orderType : OrderType) (macAddress : option string) (isFreeTrial : bool)
    (r : PurchaseResult) :
  let run := purchasePlan b w planId email orderType macAddress isFreeTrial in
  fst run = Normal r ->
  success r = false ->
  (exists e, failures (trace (snd run)) = [e] /\ error r = Some (message_of e)) \/
  (failures (trace (snd run)) = [] /\ submitted (trace (snd run)) = false /\
   exists e, own_error e /\ error r = Some (message_of e)).
Proof.
  cbv zeta. intros Hrun Hko.
  destruct (run_result_cases _ _ _ _ _ _ _ _ Hrun)
    as (co & st & [(_ & Hok & _) | (e & Hbody & -> & Htr)]); [congruence|].
  pose proof (attempt_failure b w planId email orderType macAddress co) as H.
  unfold wp in H. rewrite Hbody in H.
  assert (Hsame : failures (trace (snd (purchasePlan b w planId email orderType
                                           macAddress isFreeTrial)))
                  = failures (trace st) /\
                  submitted (trace (snd (purchasePlan b w planId email orderType
                                           macAddress isFreeTrial)))
                  = submitted (trace st)).
  { destruct Htr as [-> | ->]; [split; reflexivity|].
    destruct (closed_quietly (trace st)) as (H1 & _ & H3). now split. }
  destruct Hsame as [-> ->].
  destruct H as [[Hone _] | (Hnone & Hsub & Hown)].
  - left. exists e. split; [exact Hone | reflexivity].
  - right. repeat split; try assumption. exists e. split; [exact Hown | reflexivity].
Qed.

Lemma failure_attribution_witness :
  exists r,
    fst (purchasePlan instrumented login_wall "BASIC" "jane.doe@example.com"
           STANDARD None false) = Normal r /\
    error r = Some "IPTV provider credentials not set in environment variables".
Proof.
  eexists. split; [vm_compute; reflexivity|].
  destruct (failure_attribution instrumented login_wall "BASIC"
              "jane.doe@example.com" STANDARD None false _ eq_refl eq_refl)
    as [(e & Hone & _) | (_ & _ & e & _ & _)].
  - vm_compute in Hone. discriminate Hone.
  - reflexivity.
Defined.

(** A failure result does not mean that nothing was ordered: when the
    click on the final submission control completed and the result is a
    failure, the call that threw is the wait for the navigation, the
    settling pause or the release of the browser. *)
Theorem failure_after_submission (b : Build) (w : World) (planId email : string)
    (orderType : OrderType) (macAddress : option string) (isFreeTrial : bool)
    (r : PurchaseResult) :
  let run := purchasePlan b w planId email orderType macAddress isFreeTrial in
  fst run = Normal r ->
  success r = false ->
  submitted (trace (snd run)) = true ->
  exists op e,
    In (op, Some e) (trace (snd run)) /\ follows_submission op = true /\
    error r = Some (message_of e).
Proof.
  cbv zeta. intros Hrun Hko Hsub.
  destruct (run_result_cases _ _ _ _ _ _ _ _ Hrun)
    as (co & st & [(_ & Hok & _) | (e & Hbody & -> & Htr)]); [congruence|].
  pose proof (attempt_failure b w planId email orderType macAddress co) as H.
  unfold wp in H. rewrite Hbody in H.
  assert (Hst : submitted (trace st) = true /\
                forall op, In (op, Some e) (trace st) ->
                  In (op, Some e)
                     (trace (snd (purchasePlan b w planId email orderType
                                    macAddress isFreeTrial)))).
  { destruct Htr as [Htr | Htr]; rewrite Htr in Hsub |- *.
    - split; [exact Hsub | auto].
    - destruct (closed_quietly (trace st)) as (_ & _ & H3). rewrite H3 in Hsub.
      split; [exact Hsub|]. intros op Hin. apply in_or_app. now left. }
  destruct Hst as [Hsub' Hin'].
  destruct H as [[Hone Hops] | (_ & Hno & _)]; [|congruence].
  destruct (failures_single _ _ Hone) as (op & Hin & Hop).
  specialize (Hops Hsub'). rewrite Hop in Hops. cbn in Hops.
  rewrite andb_true_r in Hops.
  exists op, e. repeat split; [now apply Hin' | exact Hops].
Qed.

Lemma failure_after_submission_witness :
  exists r,
    fst (purchasePlan instrumented slow_confirmation "BASIC" "jane.doe@example.com"
           STANDARD None false) = Normal r /\
    success r = false /\
    exists op e,
      In (op, Some e)
         (trace (snd (purchasePlan instrumented slow_confirmation "BASIC"
                        "jane.doe@example.com" STANDARD None false))) /\
      follows_submission op = true /\ error r = Some (message_of e).
Proof.
  eexists. split; [vm_compute; reflexivity|]. split; [reflexivity|].
  exact (failure_after_submission instrumented slow_confirmation "BASIC"
           "jane.doe@example.com" STANDARD None false _ eq_refl eq_refl eq_refl).
Defined.

(* ------------------------------------------------------------------ *)
(** ** The API key *)

Lemma api_key_next (API_KEY : option string) (apiKey : Header) :
  authenticateApiKey API_KEY apiKey = Next <->
  exists key, API_KEY = Some key /\ key <> "" /\ apiKey = One key.
Proof.
  unfold authenticateApiKey.
  destruct (truthy API_KEY) eqn:Hkey; cbn [negb].
  - destruct (truthy_some _ Hkey) as (key & -> & Hne & Hor). rewrite Hor. split.
    + destruct apiKey as [|value|values]; cbn; try discriminate.
      destruct (String.eqb_spec value ""), (String.eqb_spec value key);
        cbn; try discriminate.
      intros _. subst. eauto.
    + intros (key' & Hsome & _ & ->). injection Hsome as <-.
      cbn. rewrite String.eqb_refl.
      destruct (String.eqb_spec key ""); [contradiction | reflexivity].
  - split; [discriminate|].
    intros (key & -> & Hne & _). cbn in Hkey.
    destruct (String.eqb_spec key ""); [contradiction | discriminate].
Qed.

(** [authenticateApiKey] lets a request through exactly when [API_KEY] is
    configured and not empty and the [x-api-key] header is that very
    string, given once.  Without a configured key every request is
    answered 500, whatever its header; with one, every other request is
    answered 401. *)
Theorem api_key_gate (API_KEY : option string) (apiKey : Header) :
  (authenticateApiKey API_KEY apiKey = Next <->
   exists key, API_KEY = Some key /\ key <> "" /\ apiKey = One key) /\
  (truthy API_KEY = false ->
   authenticateApiKey API_KEY apiKey
   = Answer {| code := 500; payload := ErrorOnly "API key not configured" |}) /\
  (truthy API_KEY = true ->
   authenticateApiKey API_KEY apiKey <> Next ->
   authenticateApiKey API_KEY apiKey
   = Answer {| code := 401; payload := ErrorOnly "Unauthorized: Invalid API key" |}).
Proof.
  split; [apply api_key_next|].
  unfold authenticateApiKey. split.
  - intros ->. reflexivity.
  - intros ->. cbn [negb].
    destruct (negb (header_truthy apiKey) ||
              negb (header_is apiKey (or_else API_KEY "")));
      [reflexivity | congruence].
Qed.

(* ------------------------------------------------------------------ *)
(** ** Allowed origins *)

Lemma indexOf_from_absent (x : string) (l : list string) :
  forall i, (0 <= i)%Z -> (indexOf_from i x l = -1)%Z <-> ~ In x l.
Proof.
  induction l as [|y l IH]; intros i Hi; cbn [indexOf_from In].
  - tauto.
  - destruct (String.eqb_spec y x) as [->|Hne].
    + split; [lia | intros H; exfalso; apply H; now left].
    + rewrite IH by lia. tauto.
Qed.

Lemma split_entries_clean (sep : ascii) (s : string) :
  forall x, In x (Js.split sep s) -> Js.str_existsb (Ascii.eqb sep) x = false.
Proof.
  induction s as [|c s IH]; cbn [Js.split].
  - intros x [<-|[]]. reflexivity.
  - destruct (Ascii.eqb c sep) eqn:Ec.
    + intros x [<-|Hin]; [reflexivity | now apply IH].
    + destruct (Js.split sep s) as [|h t] eqn:Es.
      * intros x [<-|[]]. cbn. now rewrite Ascii.eqb_sym, Ec.
      * intros x [<-|Hin].
        -- cbn. rewrite Ascii.eqb_sym, Ec. apply IH. now left.
        -- apply IH. now right.
Qed.

(** The CORS check accepts a request exactly when it carries no origin or
    its origin is, character for character, one of the comma-separated
    entries of [ALLOWED_ORIGINS].  So an origin that contains a comma is
    always refused, and with [ALLOWED_ORIGINS] unset or empty every
    request that names an origin is refused. *)
Theorem cors_allows (ALLOWED_ORIGINS origin : option string) :
  (cors_origin ALLOWED_ORIGINS origin = Normal true <->
   truthy origin = false \/
   exists o, origin = Some o /\ In o (allowedOrigins ALLOWED_ORIGINS)) /\
  (forall o, origin = Some o -> o <> "" ->
     Js.str_existsb (Ascii.eqb ",") o = true ->
     cors_origin ALLOWED_ORIGINS origin = Abrupt (JsError "Not allowed by CORS")) /\
  (truthy ALLOWED_ORIGINS = false -> truthy origin = true ->
   cors_origin ALLOWED_ORIGINS origin = Abrupt (JsError "Not allowed by CORS")).
Proof.
  assert (Hiff : cors_origin ALLOWED_ORIGINS origin = Normal true <->
                 truthy origin = false \/
                 exists o, origin = Some o /\ In o (allowedOrigins ALLOWED_ORIGINS)).
  { unfold cors_origin. destruct (truthy origin) eqn:Ho; cbn [negb].
    - destruct (truthy_some _ Ho) as (o & -> & Hne & Hor). rewrite Hor.
      destruct (Z.eqb_spec (indexOf o (allowedOrigins ALLOWED_ORIGINS)) (-1))
        as [Habs|Hpres]; cbn [negb].
      + apply indexOf_from_absent in Habs; [|lia].
        split; [discriminate|].
        intros [H | (o' & Hsome & Hin)]; [discriminate H|].
        injection Hsome as <-. contradiction.
      + split; [|reflexivity]. intros _. right. exists o. split; [reflexivity|].
        destruct (in_dec string_dec o (allowedOrigins ALLOWED_ORIGINS)) as [Hin|Hnot];
          [exact Hin|].
        exfalso. apply Hpres. apply indexOf_from_absent; [lia | exact Hnot].
    - split; [intros _; now left | reflexivity]. }
  assert (Hcases : cors_origin ALLOWED_ORIGINS origin = Normal true \/
                   cors_origin ALLOWED_ORIGINS origin
                   = Abrupt (JsError "Not allowed by CORS")).
  { unfold cors_origin. destruct (negb (truthy origin)); [now left|].
    destruct (negb _); [now left | now right]. }
  split; [exact Hiff|]. split.
  - intros o -> Hne Hcomma. destruct Hcases as [Hok|Hno]; [|exact Hno].
    exfalso. apply Hiff in Hok as [Hfalsy | (o' & Hsome & Hin)].
    + cbn in Hfalsy. destruct (String.eqb_spec o ""); [contradiction | discriminate].
    + injection Hsome as <-. unfold allowedOrigins in Hin.
      destruct (truthy ALLOWED_ORIGINS); [|destruct Hin].
      apply split_entries_clean in Hin. congruence.
  - intros Hcfg Ho. destruct Hcases as [Hok|Hno]; [|exact Hno].
    exfalso. apply Hiff in Hok as [Hfalsy | (o' & _ & Hin)]; [congruence|].
    unfold allowedOrigins in Hin. rewrite Hcfg in Hin. destruct Hin.
Qed.

(* ------------------------------------------------------------------ *)
(** ** The order type as received *)

Lemma purchasePlan_any_agrees (b : Build) (w : World) (planId email : string)
    (orderType : OrderType) (macAddress : option string) (isFreeTrial : bool) :
  purchasePlan_any b w planId email (show_order orderType) macAddress isFreeTrial
  = purchasePlan b w planId email orderType macAddress isFreeTrial.
Proof. destruct orderType; reflexivity. Qed.

Lemma purchasePlan_any_unfold (b : Build) (w : World)
    (planId email orderType : string) (macAddress : option string)
    (isFreeTrial : bool) :
  purchasePlan_any b w planId email orderType macAddress isFreeTrial
  = try_catch (attempt_any b w planId email orderType macAddress) (recover w)
      (entry (if logging b
              then [start_line_any planId email orderType isFreeTrial] else [])).
Proof.
  unfold purchasePlan_any, bind, log, init, entry. destruct (logging b); reflexivity.
Qed.



(* ------------------------------------------------------------------ *)
(** ** The route *)



(* ------------------------------------------------------------------ *)
(** ** An order type that is neither of the two *)

Lemma attempt_any_other (b : Build) (w : World) (planId email orderType : string)
    (given : option string) (co : list string) :
  orderType <> "STANDARD" ->
  orderType <> "MAG_DEVICE" ->
  wp (attempt_any b w planId email orderType given)
     (fun r st =>
        exists mac,
          given = Some mac /\ mac <> "" /\
          r = assemble (env w) MAG_DEVICE given mac "" /\
          In (TypeText "#mac" mac, None) (trace st))
     (fun _ _ => True)
     (entry co) /\
  wp (attempt_any b w planId email orderType given)
     (fun _ st =>
        Forall (fun ev => forall url waitUntil, fst ev = Goto url waitUntil ->
                  url = or_else (IPTV_PROVIDER_URL (env w)) "" ++ "/line")
               (trace st))
     (fun _ st =>
        Forall (fun ev => forall url waitUntil, fst ev = Goto url waitUntil ->
                  url = or_else (IPTV_PROVIDER_URL (env w)) "" ++ "/line")
               (trace st))
     (entry co).
Proof.
  intros Hstd Hmag. apply String.eqb_neq in Hstd, Hmag.
  unfold entry, attempt_any, assemble_any. rewrite Hstd, Hmag. split.
  - destruct (truthy given) eqn:Hgiven.
    + destruct (truthy_some _ Hgiven) as (mac & -> & Hne & Hor). rewrite Hor.
      repeat wp_step; try exact I.
      all: exists mac; repeat split; try assumption; in_trace.
    + repeat wp_step; exact I.
  - repeat wp_step;
      repeat (apply Forall_cons; [cbn [fst]; intros url wu Heq |]);
      try apply Forall_nil; try discriminate Heq;
      injection Heq as <- _; reflexivity.
Qed.

(** An [orderType] that is neither "STANDARD" nor "MAG_DEVICE" is not
    refused: the run navigates to "/line", as for a standard order, and
    then fills the form as for a MAG order.  It succeeds only with a MAC
    address, which becomes the username beside an empty password, and the
    result carries the MAG fields and no streaming address. *)
Theorem unrecognised_order_type (b : Build) (w : World)
    (planId email orderType : string) (given : option string)
    (isFreeTrial : bool) :
  let run := purchasePlan_any b w planId email orderType given isFreeTrial in
  orderType <> "STANDARD" ->
  orderType <> "MAG_DEVICE" ->
  Forall (fun ev => forall url waitUntil, fst ev = Goto url waitUntil ->
            url = or_else (IPTV_PROVIDER_URL (env w)) "" ++ "/line")
         (trace (snd run)) /\
  (forall r, fst run = Normal r -> success r = true ->
     exists mac,
       given = Some mac /\ mac <> "" /\
       username r = mac /\ password r = "" /\
       macAddress r = Some mac /\ serverUrl r = None /\ m3uUrl r = None /\
       In (TypeText "#mac" mac, None) (trace (snd run))).
Proof.
  cbv zeta. intros Hstd Hmag.
  destruct (attempt_any_other b w planId email orderType given
              (if logging b
               then [start_line_any planId email orderType isFreeTrial] else [])
              Hstd Hmag) as [Hres Hgoto].
  rewrite purchasePlan_any_unfold. unfold try_catch. unfold wp in Hres, Hgoto.
  destruct (attempt_any _ _ _ _ _ _ _) as [[r0|e] st].
  - cbn [fst snd]. split; [exact Hgoto|].
    intros r Hr _. injection Hr as <-.
    destruct Hres as (mac & -> & Hne & -> & Hin).
    exists mac. repeat split; assumption.
  - destruct (recover_cases w e st) as [[_ H] | [(_ & _ & H) | (_ & e' & _ & H)]];
      rewrite H; cbn [fst snd trace]; split;
      try (intros r Hr Hok; try discriminate Hr;
           injection Hr as <-; discriminate Hok);
      try exact Hgoto;
      (apply Forall_app; split; [exact Hgoto|];
       apply Forall_cons; [|apply Forall_nil];
       cbn [fst]; intros url wu Heq; discriminate Heq).
Qed.

Lemma unrecognised_order_type_witness :
  exists r,
    fst (purchasePlan_any plain calm "BASIC" "jane.doe@example.com" "TRIAL"
           (Some "00:1A:2B:3C:4D:5E") false) = Normal r /\
    username r = "00:1A:2B:3C:4D:5E" /\ serverUrl r = None.
Proof.
  eexists. split; [vm_compute; reflexivity|].
  destruct (unrecognised_order_type plain calm "BASIC" "jane.doe@example.com"
              "TRIAL" (Some "00:1A:2B:3C:4D:5E") false
              ltac:(discriminate) ltac:(discriminate)) as [_ H].
  destruct (H _ eq_refl eq_refl) as (mac & Hgiven & _ & Hu & _ & _ & Hs & _).
  injection Hgiven as <-. split; [exact Hu | exact Hs].
Defined.
